(** * BigVector.js: vectors over arbitrary-precision decimals

    A shallow embedding of [BigVector.js] and the properties of its
    operations.  The vector code is translated method by method; the decimal
    library it is written against (big.js) is an interface, [BigLib], with
    the laws the proofs use collected in [BigLaws].  The earlier revision of
    the file has the methods up to [dot] only, with the same loops, so that
    one translation stands for both. *)

From Stdlib Require Import ZArith QArith Qpower Reals Qreals Psatz.
From stdpp Require Import base option list gmap.

Close Scope Q_scope.
Close Scope R_scope.
Open Scope Z_scope.

(** ** Exceptions and results *)

(** What a call can throw: the engine's [TypeError] (a method looked up on
    [undefined]) and the three errors of the decimal library. *)
Inductive exn : Set :=
  | TypeError
  | InvalidNumber
  | DivisionByZero
  | NoSquareRoot.

Inductive res (A : Type) : Type :=
  | Ok (a : A)
  | Throw (e : exn).
Arguments Ok {A} a.
Arguments Throw {A} e.

#[global] Instance res_ret : MRet res := fun A a => Ok a.
#[global] Instance res_bind : MBind res := fun A B f m =>
  match m with
  | Ok a => f a
  | Throw e => Throw e
  end.

Definition returns {A} (m : res A) : Prop := exists a, m = Ok a.

(** ** The decimal library *)

(** [big] is the type of the library's numbers and [val] the rational a
    number stands for.  [Big n] is [new Big(n)] at an integer literal.
    [plus] (alias [add]), [minus], [times] and [pow] return a number; [div]
    and [sqrt] can throw.  [number] is the engine's native floating point
    type: [Big_valueOf] is the coercion [Math.acos] applies to its argument
    and [Big_of_number] is [new Big(x)] at a native [x]. *)
Class BigLib : Type := {
  big : Type;
  val : big -> Q;
  Big : Z -> big;
  Big_plus : big -> big -> big;
  Big_minus : big -> big -> big;
  Big_times : big -> big -> big;
  Big_div : big -> big -> res big;
  Big_pow : big -> nat -> big;
  Big_sqrt : big -> res big;
  Big_eq : big -> big -> bool;
  number : Type;
  Big_valueOf : big -> number;
  Math_acos : number -> number;
  Big_of_number : number -> res big
}.

(** [Math.PI], the double nearest to pi; it lies below pi. *)
Definition Math_PI : Q := 884279719003555 # 281474976710656.

(** What the library documents of its operations.  [plus], [minus],
    [times] and [pow] (up to the largest exponent it takes) are exact; [eq]
    compares the numbers, not their digits; [div] throws on a zero divisor
    and on no other; [sqrt] returns on a number that is not negative, its
    result is not negative, and the root of the square of an integer is that
    integer.  [Math.acos] is a number between minus one and one, where the
    constructor takes it, and ranges over zero to [Math.PI]. *)
Class BigLaws (L : BigLib) : Prop := {
  val_Big : forall n, (val (Big n) == inject_Z n)%Q;
  val_plus : forall x y, (val (Big_plus x y) == val x + val y)%Q;
  val_minus : forall x y, (val (Big_minus x y) == val x - val y)%Q;
  val_times : forall x y, (val (Big_times x y) == val x * val y)%Q;
  val_pow : forall x n,
    Z.of_nat n <= 1000000 -> (val (Big_pow x n) == val x ^ Z.of_nat n)%Q;
  Big_eq_val : forall x y, Big_eq x y = true <-> (val x == val y)%Q;
  Big_div_zero : forall x y, (val y == 0)%Q -> Big_div x y = Throw DivisionByZero;
  Big_div_nonzero : forall x y, ~ (val y == 0)%Q -> returns (Big_div x y);
  Big_sqrt_returns : forall x, (0 <= val x)%Q -> returns (Big_sqrt x);
  Big_sqrt_nonneg : forall x r, Big_sqrt x = Ok r -> (0 <= val r)%Q;
  Big_sqrt_square : forall x r (n : Z),
    0 <= n -> (val x == inject_Z (n * n))%Q -> Big_sqrt x = Ok r ->
    (val r == inject_Z n)%Q;
  Math_acos_returns : forall q,
    (-1 <= val q <= 1)%Q -> returns (Big_of_number (Math_acos (Big_valueOf q)));
  Math_acos_range : forall x r,
    Big_of_number (Math_acos x) = Ok r -> (0 <= val r <= Math_PI)%Q
}.

(** ** The vector code *)

Module BigVector.

(** What [direction] hands back is a vector or, on its sentinel branch,
    the native number [NaN]: a value of the engine, as [undefined] and
    [null] are.  [V] is the type of vectors. *)
Inductive value (V : Type) : Type :=
  | Undefined
  | Null
  | NaN
  | Vector (v : V).
Arguments Undefined {V}.
Arguments Null {V}.
Arguments NaN {V}.
Arguments Vector {V} v.

Definition is_absent {V} (r : value V) : bool :=
  match r with
  | Undefined | Null => true
  | _ => false
  end.

Definition is_numeric {V} (r : value V) : bool :=
  match r with
  | NaN => true
  | _ => false
  end.

Section Methods.
Context {L : BigLib}.

(** [a[i].m(...)]: the receiver of a method call.  A method looked up on
    [undefined] is a [TypeError]. *)
Definition receiver (o : option big) : res big :=
  match o with
  | Some x => Ok x
  | None => Throw TypeError
  end.

(** [x.m(a[i])]: every method of the library passes its argument to the
    constructor, which takes a [big] as it is and rejects [undefined]. *)
Definition argument (o : option big) : res big :=
  match o with
  | Some y => Ok y
  | None => Throw InvalidNumber
  end.

(** The [count] iterations of a loop body from index [i] on; an iteration
    that throws ends the loop. *)
Fixpoint for_loop {St : Type} (body : nat -> St -> res St) (i count : nat) (s : St)
  : res St :=
  match count with
  | O => Ok s
  | S count' => s' ← body i s; for_loop body (S i) count' s'
  end.

(** [for (var i = 0; i < n; i++) body]. *)
Definition for_upto {St : Type} (n : nat) (body : nat -> St -> res St) (s : St)
  : res St :=
  for_loop body 0 n s.

Definition magnitude (this : list big) : res big :=
  sumOfSquares ← for_upto (length this) (fun i sumOfSquares =>
      c ← receiver (this !! i);
      Ok (Big_plus sumOfSquares (Big_pow c 2)))
    (Big 0);
  Big_sqrt sumOfSquares.

Definition plus (this vector : list big) : res (list big) :=
  for_upto (length this) (fun i components =>
      x ← receiver (this !! i);
      y ← argument (vector !! i);
      let sum := Big_plus x y in
      Ok (components ++ [sum]))
    [].

Definition direction (this : list big) : res (value (list big)) :=
  m ← magnitude this;
  if negb (Big_eq m (Big 0)) then
    components ← for_upto (length this) (fun i components =>
        c ← receiver (this !! i);
        m ← magnitude this;
        normalizedComponent ← Big_div c m;
        Ok (components ++ [normalizedComponent]))
      [];
    Ok (Vector components)
  else
    Ok NaN.

Definition minus (this vector : list big) : res (list big) :=
  for_upto (length this) (fun i components =>
      x ← receiver (this !! i);
      y ← argument (vector !! i);
      let difference := Big_minus x y in
      Ok (components ++ [difference]))
    [].

Definition scale (this : list big) (scalar : big) : res (list big) :=
  for_upto (length this) (fun i components =>
      x ← receiver (this !! i);
      let product := Big_times x scalar in
      Ok (components ++ [product]))
    [].

Definition dot (this vector : list big) : res big :=
  for_upto (length this) (fun i sum =>
      x ← receiver (this !! i);
      y ← argument (vector !! i);
      Ok (Big_plus sum (Big_times x y)))
    (Big 0).

Definition distance (this vector : list big) : res big :=
  squaresOfDifs ← for_upto (length this) (fun i squaresOfDifs =>
      x ← receiver (this !! i);
      y ← argument (vector !! i);
      Ok (Big_plus squaresOfDifs (Big_pow (Big_minus x y) 2)))
    (Big 0);
  Big_sqrt squaresOfDifs.

Definition cross (this vector : list big) : res (list big) :=
  t1 ← receiver (this !! 1%nat);
  v2 ← argument (vector !! 2%nat);
  t2 ← receiver (this !! 2%nat);
  v1 ← argument (vector !! 1%nat);
  let x := Big_minus (Big_times t1 v2) (Big_times t2 v1) in
  t2 ← receiver (this !! 2%nat);
  v0 ← argument (vector !! 0%nat);
  t0 ← receiver (this !! 0%nat);
  v2 ← argument (vector !! 2%nat);
  let y := Big_minus (Big_times t2 v0) (Big_times t0 v2) in
  t0 ← receiver (this !! 0%nat);
  v1 ← argument (vector !! 1%nat);
  t1 ← receiver (this !! 1%nat);
  v0 ← argument (vector !! 0%nat);
  let z := Big_minus (Big_times t0 v1) (Big_times t1 v0) in
  Ok [x; y; z].

Definition angle (this vector : list big) : res big :=
  numerator ← dot this vector;
  m ← magnitude this;
  m' ← magnitude vector;
  let denominator := Big_times m m' in
  q ← Big_div numerator denominator;
  Big_of_number (Math_acos (Big_valueOf q)).

Definition polarCoords (this : list big) : res (big * big) :=
  magnitude ← magnitude this;
  if negb (Big_eq magnitude (Big 0)) then
    let x := Big 1 in
    let y := Big 0 in
    angle ← angle this [x; y];
    Ok (magnitude, angle)
  else
    Ok (magnitude, Big 0).

End Methods.
End BigVector.

(** ** Vectors as objects

    A [BigVector] holds a reference to its array of components.  The arrays
    live in a store; the constructor keeps the reference it is given and
    [getComponents] hands the same reference back. *)

Module Obj.
Section Objects.
Context {L : BigLib}.

Definition ref := nat.
Abbreviation store := (gmap ref (list big)).

Record BigVector : Type := { components : ref }.

(** [function BigVector(components) { this.components = components; ... }] *)
Definition new_BigVector (components : ref) : BigVector :=
  {| components := components |}.

Definition getComponents (this : BigVector) : ref := components this.

(** Reading [v.components]: the array the reference stands for. *)
Definition load (h : store) (this : BigVector) : res (list big) :=
  match h !! components this with
  | Some a => Ok a
  | None => Throw TypeError
  end.

(** [new BigVector(components)] at an array literal built by the method:
    the array is new in the store. *)
Definition alloc (h : store) (a : list big) : store * BigVector :=
  let r := fresh (dom h) in (<[r := a]> h, new_BigVector r).

Definition magnitude (h : store) (this : BigVector) : res big :=
  a ← load h this; BigVector.magnitude a.

Definition plus (h : store) (this vector : BigVector) : res (store * BigVector) :=
  a ← load h this; b ← load h vector;
  c ← BigVector.plus a b; Ok (alloc h c).

Definition minus (h : store) (this vector : BigVector) : res (store * BigVector) :=
  a ← load h this; b ← load h vector;
  c ← BigVector.minus a b; Ok (alloc h c).

Definition scale (h : store) (this : BigVector) (scalar : big)
  : res (store * BigVector) :=
  a ← load h this;
  c ← BigVector.scale a scalar; Ok (alloc h c).

Definition cross (h : store) (this vector : BigVector) : res (store * BigVector) :=
  a ← load h this; b ← load h vector;
  c ← BigVector.cross a b; Ok (alloc h c).

Definition direction (h : store) (this : BigVector)
  : res (store * BigVector.value BigVector) :=
  a ← load h this;
  r ← BigVector.direction a;
  match r with
  | BigVector.Vector c =>
      let (h', v) := alloc h c in Ok (h', BigVector.Vector v)
  | BigVector.NaN => Ok (h, BigVector.NaN)
  | BigVector.Null => Ok (h, BigVector.Null)
  | BigVector.Undefined => Ok (h, BigVector.Undefined)
  end.

Definition dot (h : store) (this vector : BigVector) : res big :=
  a ← load h this; b ← load h vector; BigVector.dot a b.

Definition distance (h : store) (this vector : BigVector) : res big :=
  a ← load h this; b ← load h vector; BigVector.distance a b.

(** What a caller can do to an array it holds.  [assign] is [a[i] = x] for
    [i] up to the length (a write at the length is a push; one further out
    leaves holes, which a list of numbers does not hold); [overwrite]
    leaves the array with any other contents. *)
Definition assign (h : store) (r : ref) (i : nat) (x : big) : option store :=
  a ← h !! r;
  if decide (i < length a)%nat then Some (<[r := <[i := x]> a]> h)
  else if decide (i = length a) then Some (<[r := a ++ [x]]> h)
  else None.

Definition overwrite (h : store) (r : ref) (a : list big) : store :=
  <[r := a]> h.

End Objects.
End Obj.

(** ** A decimal library *)

Module Decimal.

(** Modelled from the spec: the Decimal capability, which is the big.js
    library and not part of the repository: an arbitrary-precision signed
    decimal with addition, subtraction, multiplication, division,
    exponentiation by a small integer, square root, equality comparison and
    conversion to and from a native number, its rounding fixed once.  A
    number is [mant / 10 ^ scale].  Addition, subtraction, multiplication
    and powers are exact; division and square root round half up to [DP]
    decimal places; division by zero, the square root of a negative number
    and the conversion of a native not-a-number throw. *)
Record dec : Set := Dec { mant : Z; scale : nat }.

Fixpoint pow10 (k : nat) : positive :=
  match k with
  | O => 1
  | S k' => 10 * pow10 k'
  end.

(** [10 ^ k] as an integer. *)
Definition ten (k : nat) : Z := Z.pos (pow10 k).

Definition value (x : dec) : Q := mant x # pow10 (scale x).

(** Trailing zeros of the fraction are dropped. *)
Fixpoint strip (m : Z) (k : nat) : dec :=
  match k with
  | O => Dec m O
  | S k' => if m mod 10 =? 0 then strip (m / 10) k' else Dec m k
  end.

Definition norm (x : dec) : dec := strip (mant x) (scale x).

Definition of_Z (n : Z) : dec := Dec n 0.

Definition add (x y : dec) : dec :=
  norm (Dec (mant x * ten (scale y) + mant y * ten (scale x))
            (scale x + scale y)).

Definition sub (x y : dec) : dec :=
  norm (Dec (mant x * ten (scale y) - mant y * ten (scale x))
            (scale x + scale y)).

Definition mul (x y : dec) : dec :=
  norm (Dec (mant x * mant y) (scale x + scale y)).

Fixpoint pow (x : dec) (n : nat) : dec :=
  match n with
  | O => of_Z 1
  | S n' => mul x (pow x n')
  end.

Definition eqb (x y : dec) : bool :=
  mant x * ten (scale y) =? mant y * ten (scale x).

(** The number of decimal places kept by [div] and [sqrt]. *)
Definition DP : nat := 20.

(** [n / d] to the nearest integer, halves away from zero. *)
Definition round_div (n d : Z) : Z :=
  Z.sgn n * Z.sgn d * ((2 * Z.abs n + Z.abs d) / (2 * Z.abs d)).

Definition div (x y : dec) : res dec :=
  if mant y =? 0 then Throw DivisionByZero
  else Ok (norm (Dec (round_div (mant x * ten (scale y) * ten DP)
                                (mant y * ten (scale x))) DP)).

(** The root of [x] to [DP] places, halves up: with [s] the integer root of
    [4 * x * 10 ^ (2 * DP)], it is [(s + 1) / 2] in units of [10 ^ -DP]. *)
Definition sqrt (x : dec) : res dec :=
  if mant x <? 0 then Throw NoSquareRoot
  else Ok (norm (Dec ((Z.sqrt (4 * mant x * ten (2 * DP) / ten (scale x)) + 1) / 2)
                     DP)).

(** Native numbers: not-a-number or a value. *)
Definition num : Set := option dec.

Definition valueOf (x : dec) : num := Some x.

Definition of_num (x : num) : res dec :=
  match x with
  | Some y => Ok y
  | None => Throw InvalidNumber
  end.

(** The arc cosine, cut to sixteen decimals: bisection on the cosine
    series, in units of [10 ^ -40], between zero and [Math.PI].  Outside
    [[-1, 1]] it is not a number. *)
Definition unit : Z := ten 40.
Definition PI_units : Z := 31415926535897931159979634685441851615905.

Fixpoint cos_series (t2 : Z) (k : nat) (c : Z) : Z :=
  match k with
  | O => c
  | S k' =>
      let j := Z.of_nat k in
      cos_series t2 k' (unit - t2 * c / (unit * ((2 * j - 1) * (2 * j))))
  end.

Definition cos_units (t : Z) : Z := cos_series (t * t / unit) 30 unit.

Fixpoint bisect (x : Z) (n : nat) (lo hi : Z) : Z :=
  match n with
  | O => lo
  | S n' =>
      let mid := (lo + hi) / 2 in
      if x <? cos_units mid then bisect x n' mid hi else bisect x n' lo mid
  end.

Definition to_units (x : dec) : Z := mant x * unit / ten (scale x).

Definition acos (x : num) : num :=
  match x with
  | None => None
  | Some y =>
      if Z.abs (mant y) <=? ten (scale y)
      then Some (norm (Dec (bisect (to_units y) 140 0 PI_units / ten 24) 16))
      else None
  end.

#[global] Instance lib : BigLib := {|
  big := dec;
  val := value;
  Big := of_Z;
  Big_plus := add;
  Big_minus := sub;
  Big_times := mul;
  Big_div := div;
  Big_pow := pow;
  Big_sqrt := sqrt;
  Big_eq := eqb;
  number := num;
  Big_valueOf := valueOf;
  Math_acos := acos;
  Big_of_number := of_num
|}.

End Decimal.

(** ** Sums

    The sum of a list of rationals, the reading of the capital sigma of the
    formulas: [Qsum [q0; q1; q2] = q0 + (q1 + (q2 + 0))]. *)
Definition Qsum (l : list Q) : Q := foldr Qplus 0%Q l.

(** Two vectors are equal when they have the same dimension and their
    components are pairwise equal for the library's [eq]. *)
Definition same_values {L : BigLib} (v w : list big) : Prop :=
  Forall2 (fun x y => Big_eq x y = true) v w.

(** Two calls have the same outcome when both return equal numbers or
    both throw the same exception. *)
Definition same_outcome {L : BigLib} (a b : res big) : Prop :=
  match a, b with
  | Ok x, Ok y => Big_eq x y = true
  | Throw e, Throw e' => e = e'
  | _, _ => False
  end.

(** The library keeps one representation per number, so that the root of a
    number depends on the number only. *)
Class BigSqrtProper (L : BigLib) : Prop := {
  Big_sqrt_val : forall x y,
    (val x == val y)%Q -> same_outcome (Big_sqrt x) (Big_sqrt y)
}.

(** A vector all of whose components equal zero. *)
Definition zero_vector {L : BigLib} (v : list big) : Prop :=
  Forall (fun c => Big_eq c (Big 0) = true) v.

(** * Properties *)

(** ** Loops *)

Section Loops.
Context {L : BigLib}.
Import BigVector.

Lemma bind_Ok {A B} (m : res A) (f : A -> res B) (b : B) :
  (m ≫= f) = Ok b -> exists a, m = Ok a /\ f a = Ok b.
Proof. destruct m as [a|e]; [eauto | discriminate]. Qed.

(** A loop over one array that folds a pure step. *)
Lemma loop_foldl {St} (f : St -> big -> St) (this : list big) c :
  forall i s, (i + c <= length this)%nat ->
  for_loop (fun i s => x ← receiver (this !! i); Ok (f s x)) i c s
  = Ok (foldl f s (take c (drop i this))).
Proof.
  induction c as [|c IH]; intros i s Hle; simpl; [done|].
  destruct (lookup_lt_is_Some_2 this i) as [x Hx]; [lia|].
  rewrite Hx. simpl. rewrite IH by lia.
  by rewrite (drop_S _ _ _ Hx).
Qed.

(** A loop over two arrays, both long enough. *)
Lemma loop_foldl2 {St} (f : St -> big -> big -> St) (this vector : list big) c :
  forall i s, (i + c <= length this)%nat -> (i + c <= length vector)%nat ->
  for_loop (fun i s => x ← receiver (this !! i); y ← argument (vector !! i);
                       Ok (f s x y)) i c s
  = Ok (foldl (fun s p => f s p.1 p.2) s
          (zip (take c (drop i this)) (take c (drop i vector)))).
Proof.
  induction c as [|c IH]; intros i s Hle Hle'; simpl; [done|].
  destruct (lookup_lt_is_Some_2 this i) as [x Hx]; [lia|].
  destruct (lookup_lt_is_Some_2 vector i) as [y Hy]; [lia|].
  rewrite Hx, Hy. simpl. rewrite IH by lia.
  by rewrite (drop_S _ _ _ Hx), (drop_S _ _ _ Hy).
Qed.

(** A loop over two arrays, the second one too short: the read past its
    end hands [undefined] to the library. *)
Lemma loop_short {St} (f : St -> big -> big -> res St) (this vector : list big) c :
  forall i s, (i <= length vector)%nat -> (length vector < i + c)%nat ->
  (i + c <= length this)%nat ->
  (forall s x y, returns (f s x y)) ->
  for_loop (fun i s => x ← receiver (this !! i); y ← argument (vector !! i);
                       f s x y) i c s
  = Throw InvalidNumber.
Proof.
  induction c as [|c IH]; intros i s Hi Hlt Hle Hf; simpl; [lia|].
  destruct (lookup_lt_is_Some_2 this i) as [x Hx]; [lia|].
  rewrite Hx. simpl.
  destruct (decide (i = length vector)) as [->|Hne].
  - by rewrite (lookup_ge_None_2 vector (length vector)) by lia.
  - destruct (lookup_lt_is_Some_2 vector i) as [y Hy]; [lia|].
    rewrite Hy. simpl. destruct (Hf s x y) as [s' ->]. simpl.
    apply IH; [lia..|done].
Qed.

(** A loop over one array whose step can throw. *)
Lemma loop_mapM (g : big -> res big) (this : list big) c :
  forall i s, (i + c <= length this)%nat ->
  for_loop (fun i s => x ← receiver (this !! i); q ← g x; Ok (s ++ [q])) i c s
  = (qs ← mapM g (take c (drop i this)); Ok (s ++ qs)).
Proof.
  induction c as [|c IH]; intros i s Hle; simpl.
  - by rewrite app_nil_r.
  - destruct (lookup_lt_is_Some_2 this i) as [x Hx]; [lia|].
    rewrite Hx. simpl. rewrite (drop_S _ _ _ Hx). simpl.
    destruct (g x) as [q|e]; simpl; [|done].
    rewrite IH by lia.
    destruct (mapM g (take c (drop (S i) this))) as [qs|e]; simpl; [|done].
    by rewrite <- app_assoc.
Qed.

Lemma foldl_snoc {A B} (g : A -> B) (l : list A) :
  forall acc, foldl (fun s x => s ++ [g x]) acc l = acc ++ (g <$> l).
Proof.
  induction l as [|x l IH]; intros acc; simpl.
  - by rewrite app_nil_r.
  - by rewrite IH, <- app_assoc.
Qed.

End Loops.

(** ** The methods as folds *)

Section Folds.
Context {L : BigLib}.
Import BigVector.

Lemma upto_foldl2 {St} (f : St -> big -> big -> St) (this vector : list big) s :
  (length this <= length vector)%nat ->
  for_upto (length this)
    (fun i s => x ← receiver (this !! i); y ← argument (vector !! i);
                Ok (f s x y)) s
  = Ok (foldl (fun s p => f s p.1 p.2) s (zip this vector)).
Proof.
  intros Hle. unfold for_upto.
  rewrite loop_foldl2 by (simpl; lia).
  rewrite drop_0, take_ge by lia. do 2 f_equal.
  apply zip_with_take_r.
Qed.

Lemma upto_short {St} (f : St -> big -> big -> res St) (this vector : list big) s :
  (length vector < length this)%nat ->
  (forall s x y, returns (f s x y)) ->
  for_upto (length this)
    (fun i s => x ← receiver (this !! i); y ← argument (vector !! i); f s x y) s
  = Throw InvalidNumber.
Proof. intros Hlt Hf. apply loop_short; [lia..|done]. Qed.

Lemma upto_foldl {St} (f : St -> big -> St) (this : list big) s :
  for_upto (length this) (fun i s => x ← receiver (this !! i); Ok (f s x)) s
  = Ok (foldl f s this).
Proof.
  unfold for_upto. rewrite loop_foldl by (simpl; lia).
  by rewrite drop_0, take_ge.
Qed.

Lemma foldl_snoc_zip (op : big -> big -> big) (this vector : list big) :
  foldl (fun s p => s ++ [op p.1 p.2]) [] (zip this vector)
  = zip_with op this vector.
Proof.
  rewrite (foldl_snoc (fun p => op p.1 p.2)). simpl.
  rewrite (zip_with_zip op). apply list_fmap_ext. by intros ? [x y].
Qed.

Lemma plus_zip (this vector : list big) :
  (length this <= length vector)%nat ->
  plus this vector = Ok (zip_with Big_plus this vector).
Proof.
  intros Hle. unfold plus.
  rewrite (upto_foldl2 (fun s x y => s ++ [Big_plus x y])) by done.
  by rewrite foldl_snoc_zip.
Qed.

Lemma plus_short (this vector : list big) :
  (length vector < length this)%nat ->
  plus this vector = Throw InvalidNumber.
Proof. intros Hlt. apply upto_short; [done|]. intros; eexists; reflexivity. Qed.

Lemma minus_zip (this vector : list big) :
  (length this <= length vector)%nat ->
  minus this vector = Ok (zip_with Big_minus this vector).
Proof.
  intros Hle. unfold minus.
  rewrite (upto_foldl2 (fun s x y => s ++ [Big_minus x y])) by done.
  by rewrite foldl_snoc_zip.
Qed.

Lemma minus_short (this vector : list big) :
  (length vector < length this)%nat ->
  minus this vector = Throw InvalidNumber.
Proof. intros Hlt. apply upto_short; [done|]. intros; eexists; reflexivity. Qed.

Lemma scale_map (this : list big) (scalar : big) :
  scale this scalar = Ok ((fun x => Big_times x scalar) <$> this).
Proof.
  unfold scale.
  rewrite (upto_foldl (fun s x => s ++ [Big_times x scalar])).
  by rewrite foldl_snoc.
Qed.

Lemma dot_foldl (this vector : list big) :
  (length this <= length vector)%nat ->
  dot this vector
  = Ok (foldl (fun s p => Big_plus s (Big_times p.1 p.2)) (Big 0)
          (zip this vector)).
Proof.
  intros Hle. unfold dot.
  by rewrite (upto_foldl2 (fun s x y => Big_plus s (Big_times x y))).
Qed.

Lemma dot_short (this vector : list big) :
  (length vector < length this)%nat ->
  dot this vector = Throw InvalidNumber.
Proof. intros Hlt. apply upto_short; [done|]. intros; eexists; reflexivity. Qed.

Lemma distance_foldl (this vector : list big) :
  (length this <= length vector)%nat ->
  distance this vector
  = Big_sqrt (foldl (fun s p => Big_plus s (Big_pow (Big_minus p.1 p.2) 2))
                (Big 0) (zip this vector)).
Proof.
  intros Hle. unfold distance.
  by rewrite (upto_foldl2 (fun s x y => Big_plus s (Big_pow (Big_minus x y) 2))).
Qed.

Lemma distance_short (this vector : list big) :
  (length vector < length this)%nat ->
  distance this vector = Throw InvalidNumber.
Proof.
  intros Hlt. unfold distance.
  rewrite (upto_short (fun s x y => Ok (Big_plus s (Big_pow (Big_minus x y) 2))));
    [done..|].
  intros; eexists; reflexivity.
Qed.

Lemma magnitude_foldl (this : list big) :
  magnitude this
  = Big_sqrt (foldl (fun s c => Big_plus s (Big_pow c 2)) (Big 0) this).
Proof.
  unfold magnitude.
  by rewrite (upto_foldl (fun s c => Big_plus s (Big_pow c 2))).
Qed.

End Folds.

(** ** The values of the results *)

Section Values.
Context {L : BigLib} {HL : BigLaws L}.
Import BigVector.

Lemma Qsum_nonneg (l : list Q) : Forall (fun q => 0 <= q)%Q l -> (0 <= Qsum l)%Q.
Proof.
  induction 1 as [|q l Hq _ IH]; simpl; [apply Qle_refl|].
  change 0%Q with (0 + 0)%Q at 1. by apply Qplus_le_compat.
Qed.

Lemma Qsum_zero (l : list Q) : Forall (fun q => q == 0)%Q l -> (Qsum l == 0)%Q.
Proof.
  induction 1 as [|q l Hq _ IH]; simpl; [reflexivity|].
  rewrite Hq, IH. reflexivity.
Qed.

Lemma val_foldl_plus {A} (g : A -> big) (l : list A) :
  forall s, (val (foldl (fun s x => Big_plus s (g x)) s l)
             == val s + Qsum ((fun x => val (g x)) <$> l))%Q.
Proof.
  induction l as [|x l IH]; intros s; simpl.
  - by rewrite Qplus_0_r.
  - rewrite IH, val_plus. by rewrite Qplus_assoc.
Qed.

Lemma val_pow2 (c : big) : (val (Big_pow c 2) == val c * val c)%Q.
Proof.
  transitivity (val c ^ Z.of_nat 2)%Q; [apply val_pow; lia | reflexivity].
Qed.

Lemma val_sumOfSquares (this : list big) :
  (val (foldl (fun s c => Big_plus s (Big_pow c 2)) (Big 0) this)
   == Qsum ((fun c => val c * val c) <$> this))%Q.
Proof.
  rewrite (val_foldl_plus (fun c => Big_pow c 2)), val_Big, Qplus_0_l.
  induction this as [|c l IH]; simpl; [reflexivity|].
  by rewrite IH, val_pow2.
Qed.

Lemma sumOfSquares_nonneg (l : list Q) : (0 <= Qsum ((fun q => q * q) <$> l))%Q.
Proof.
  apply Qsum_nonneg. induction l as [|q l IH]; simpl; constructor; [|done].
  apply (Qsqr_nonneg q).
Qed.

Lemma magnitude_returns (this : list big) :
  exists r, magnitude this = Ok r /\ (0 <= val r)%Q.
Proof.
  rewrite magnitude_foldl.
  destruct (Big_sqrt_returns
    (foldl (fun s c => Big_plus s (Big_pow c 2)) (Big 0) this)) as [r Hr].
  - rewrite val_sumOfSquares.
    generalize (sumOfSquares_nonneg (val <$> this)).
    by rewrite <- list_fmap_compose.
  - exists r. split; [done|]. by apply (Big_sqrt_nonneg _ _ Hr).
Qed.

End Values.

(** ** The decimal library obeys the laws *)

Section DecimalLaws.
Import Decimal.

Lemma ten_pos k : 0 < ten k.
Proof. unfold ten. lia. Qed.

Lemma ten_add a b : ten (a + b) = ten a * ten b.
Proof.
  unfold ten. induction a as [|a IH]; simpl pow10.
  - by destruct (pow10 b).
  - rewrite Pos2Z.inj_mul. change (pow10 (a + b)%nat) with (pow10 (a + b)).
    rewrite (Pos2Z.inj_mul 10 (pow10 a)). lia.
Qed.

Lemma value_eq (x y : dec) :
  (value x == value y)%Q <-> mant x * ten (scale y) = mant y * ten (scale x).
Proof. reflexivity. Qed.

Lemma value_strip m k : (value (strip m k) == value (Dec m k))%Q.
Proof.
  revert m. induction k as [|k IH]; intros m; simpl; [reflexivity|].
  destruct (Z.eqb_spec (m mod 10) 0) as [Hm|Hm]; [|reflexivity].
  rewrite IH. apply value_eq. simpl. unfold ten. simpl pow10.
  rewrite (Pos2Z.inj_mul 10 (pow10 k)).
  pose proof (Z.div_mod m 10). lia.
Qed.

Lemma value_norm x : (value (norm x) == value x)%Q.
Proof. destruct x as [m k]. apply value_strip. Qed.

Ltac to_Z :=
  unfold Qminus; unfold Qeq, Qplus, Qopp, Qmult, Qle, Qlt, value, inject_Z;
  cbn [Qnum Qden mant scale];
  rewrite ?Pos2Z.inj_mul; fold (ten 0);
  repeat match goal with |- context [Z.pos (pow10 ?k)] => fold (ten k) end;
  rewrite ?ten_add.

Lemma value_of_Z n : (value (of_Z n) == inject_Z n)%Q.
Proof. reflexivity. Qed.

Lemma value_add x y : (value (add x y) == value x + value y)%Q.
Proof. unfold add. rewrite value_norm. to_Z. ring. Qed.

Lemma value_sub x y : (value (sub x y) == value x - value y)%Q.
Proof. unfold sub. rewrite value_norm. to_Z. ring. Qed.

Lemma value_mul x y : (value (mul x y) == value x * value y)%Q.
Proof. unfold mul. rewrite value_norm. to_Z. ring. Qed.

Lemma value_pow x n :
  Z.of_nat n <= 1000000 -> (value (pow x n) == value x ^ Z.of_nat n)%Q.
Proof.
  intros _. induction n as [|n IH].
  - reflexivity.
  - cbn [pow]. rewrite value_mul, IH, Nat2Z.inj_succ, <- Z.add_1_l.
    rewrite Qpower_plus' by lia. reflexivity.
Qed.

Lemma eqb_value x y : eqb x y = true <-> (value x == value y)%Q.
Proof. unfold eqb. rewrite Z.eqb_eq. symmetry. apply value_eq. Qed.

Lemma value_zero x : (value x == 0)%Q <-> mant x = 0.
Proof. to_Z. lia. Qed.

Lemma value_negative x : (value x < 0)%Q <-> mant x < 0.
Proof. to_Z. lia. Qed.

Lemma div_zero x y : (value y == 0)%Q -> div x y = Throw DivisionByZero.
Proof. intros H%value_zero. unfold div. by rewrite H. Qed.

Lemma div_nonzero x y : ~ (value y == 0)%Q -> returns (div x y).
Proof.
  intros H. unfold div. destruct (Z.eqb_spec (mant y) 0) as [E|E].
  - by apply value_zero in E.
  - by eexists.
Qed.

Lemma sqrt_negative x : (value x < 0)%Q -> sqrt x = Throw NoSquareRoot.
Proof.
  intros H%value_negative. unfold sqrt. by rewrite (proj2 (Z.ltb_lt _ _) H).
Qed.

Lemma sqrt_returns x : (0 <= value x)%Q -> returns (sqrt x).
Proof.
  intros H. unfold sqrt. destruct (Z.ltb_spec (mant x) 0) as [E|E].
  - apply value_negative in E. lra.
  - by eexists.
Qed.

Lemma sqrt_nonneg x r : sqrt x = Ok r -> (0 <= value r)%Q.
Proof.
  unfold sqrt. destruct (Z.ltb_spec (mant x) 0) as [E|E]; [done|].
  intros [= <-]. rewrite value_norm. to_Z.
  rewrite Z.mul_0_l, Z.mul_1_r. apply Z.div_pos; [|lia].
  match goal with |- context [Z.sqrt ?a] => pose proof (Z.sqrt_nonneg a) end.
  lia.
Qed.

Lemma sqrt_square x r n :
  0 <= n -> (value x == inject_Z (n * n))%Q -> sqrt x = Ok r ->
  (value r == inject_Z n)%Q.
Proof.
  intros Hn Hx. unfold sqrt.
  assert (Hm : mant x = n * n * ten (scale x)) by (revert Hx; to_Z; lia).
  destruct (Z.ltb_spec (mant x) 0) as [E|E]; [done|].
  intros [= <-]. rewrite value_norm.
  assert (HN : 4 * mant x * ten 40 / ten (scale x)
               = (2 * n * ten DP) * (2 * n * ten DP)).
  { rewrite Hm. change 40%nat with (DP + DP)%nat.
    rewrite ten_add.
    replace (4 * (n * n * ten (scale x)) * (ten DP * ten DP))
      with ((2 * n * ten DP) * (2 * n * ten DP) * ten (scale x)) by ring.
    rewrite Z.div_mul; [done|]. pose proof (ten_pos (scale x)). lia. }
  rewrite HN, Z.sqrt_square by (pose proof (ten_pos DP); lia).
  replace (2 * n * ten DP + 1) with (1 + n * ten DP * 2) by ring.
  rewrite Z.div_add by lia. change (1 / 2) with 0.
  to_Z. ring.
Qed.

Lemma bisect_between x n :
  forall lo hi, lo <= hi -> lo <= bisect x n lo hi <= hi.
Proof.
  induction n as [|n IH]; intros lo hi Hle; simpl; [lia|].
  assert (lo <= (lo + hi) / 2 <= hi).
  { split; [apply Z.div_le_lower_bound | apply Z.div_le_upper_bound]; lia. }
  destruct (x <? cos_units ((lo + hi) / 2)).
  - specialize (IH ((lo + hi) / 2) hi). lia.
  - specialize (IH lo ((lo + hi) / 2)). lia.
Qed.

Lemma acos_range x r :
  of_num (acos x) = Ok r -> (0 <= value r <= Math_PI)%Q.
Proof.
  destruct x as [y|]; [|discriminate]. unfold acos.
  pose proof (bisect_between (to_units y) 140 0 PI_units) as HB.
  set (b := bisect (to_units y) 140 0 PI_units) in *.
  destruct (Z.abs (mant y) <=? ten (scale y)); [|discriminate].
  unfold of_num. intros H.
  assert (r = norm (Dec (b / ten 24) 16)) as -> by congruence.
  rewrite value_norm.
  assert (0 <= b / ten 24 <= PI_units / ten 24) as [Hlo Hhi].
  { split; [apply Z.div_pos | apply Z.div_le_mono]; unfold ten, PI_units in *; lia. }
  change (PI_units / ten 24) with 31415926535897931 in Hhi.
  unfold Math_PI. to_Z. change (ten 16) with 10000000000000000. lia.
Qed.

Lemma acos_returns q :
  (-1 <= value q <= 1)%Q -> returns (of_num (acos (valueOf q))).
Proof.
  intros [Hlo Hhi]. unfold valueOf, acos.
  destruct (Z.leb_spec (Z.abs (mant q)) (ten (scale q))) as [_|Habs].
  - by eexists.
  - revert Hlo Hhi. to_Z. lia.
Qed.

#[global] Instance laws : BigLaws lib.
Proof.
  split.
  - exact value_of_Z.
  - exact value_add.
  - exact value_sub.
  - exact value_mul.
  - exact value_pow.
  - exact eqb_value.
  - exact div_zero.
  - exact div_nonzero.
  - exact sqrt_returns.
  - exact sqrt_nonneg.
  - exact sqrt_square.
  - exact acos_returns.
  - exact acos_range.
Qed.

End DecimalLaws.

(** ** Binary operations on vectors of any two dimensions *)

Section Binary.
Context {L : BigLib} {HL : BigLaws L}.
Import BigVector.

Lemma foldl_zip_with {A} (f : A -> big -> A) (op : big -> big -> big)
    (l k : list big) :
  forall s, foldl f s (zip_with op l k)
            = foldl (fun s p => f s (op p.1 p.2)) s (zip l k).
Proof.
  revert k. induction l as [|x l IH]; intros [|y k] s; simpl; auto.
Qed.

Lemma Qsum_zip (f : big -> big -> big) (g : Q -> Q -> Q) (l k : list big) :
  (forall x y, val (f x y) == g (val x) (val y))%Q ->
  (Qsum ((fun p => val (f p.1 p.2)) <$> zip l k)
   == Qsum (zip_with (fun x y => g (val x) (val y)) l k))%Q.
Proof.
  intros Hf. revert k.
  induction l as [|x l IH]; intros [|y k]; simpl; try reflexivity.
  by rewrite IH, Hf.
Qed.

Lemma Qsum_zip_flip (g : Q -> Q -> Q) (l k : list big) :
  (forall a b, g a b == g b a)%Q ->
  (Qsum (zip_with (fun x y => g (val x) (val y)) l k)
   == Qsum (zip_with (fun x y => g (val x) (val y)) k l))%Q.
Proof.
  intros Hg. revert k.
  induction l as [|x l IH]; intros [|y k]; simpl; try reflexivity.
  by rewrite IH, Hg.
Qed.

Lemma val_dot (this vector : list big) :
  (length this <= length vector)%nat ->
  exists s, dot this vector = Ok s /\
    (val s == Qsum (zip_with (fun x y => val x * val y) this vector))%Q.
Proof.
  intros Hle. rewrite dot_foldl by done. eexists; split; [done|].
  rewrite (val_foldl_plus (fun p => Big_times p.1 p.2)), val_Big, Qplus_0_l.
  apply (Qsum_zip Big_times Qmult), val_times.
Qed.

Lemma squares_nonneg {A} (g : A -> big) (l : list A) :
  (0 <= Qsum ((fun x => val (Big_pow (g x) 2)) <$> l))%Q.
Proof.
  apply Qsum_nonneg, Forall_fmap, Forall_true. intros x. simpl.
  rewrite val_pow2. apply (Qsqr_nonneg (val (g x))).
Qed.

Lemma distance_returns (this vector : list big) :
  (length this <= length vector)%nat -> returns (distance this vector).
Proof.
  intros Hle. rewrite distance_foldl by done. apply Big_sqrt_returns.
  rewrite (val_foldl_plus (fun p => Big_pow (Big_minus p.1 p.2) 2)).
  rewrite val_Big, Qplus_0_l.
  apply (squares_nonneg (fun p => Big_minus p.1 p.2)).
Qed.

Lemma distance_minus_magnitude (this vector : list big) :
  distance this vector = (difference ← minus this vector; magnitude difference).
Proof.
  destruct (decide (length this <= length vector)%nat) as [Hle|Hgt].
  - rewrite distance_foldl, minus_zip by done. simpl.
    by rewrite magnitude_foldl, foldl_zip_with.
  - by rewrite distance_short, minus_short by lia.
Qed.

End Binary.

(** ** Claims on the binary operations *)

Section BinaryClaims.
Context {L : BigLib} {HL : BigLaws L}.
Import BigVector.

Lemma cross_three (t0 t1 t2 v0 v1 v2 : big) (t' v' : list big) :
  cross (t0 :: t1 :: t2 :: t') (v0 :: v1 :: v2 :: v')
  = Ok [Big_minus (Big_times t1 v2) (Big_times t2 v1);
        Big_minus (Big_times t2 v0) (Big_times t0 v2);
        Big_minus (Big_times t0 v1) (Big_times t1 v0)].
Proof. reflexivity. Qed.

Lemma cross_short (this vector : list big) :
  (length this < 3)%nat \/ (length vector < 3)%nat ->
  cross this vector = Throw TypeError \/ cross this vector = Throw InvalidNumber.
Proof.
  destruct this as [|t0 [|t1 [|t2 t']]]; simpl; auto;
    destruct vector as [|v0 [|v1 [|v2 v']]]; simpl; auto; lia.
Qed.

(** C1 (amended): no binary operation compares dimensions and none raises a
    dimension error.  [plus], [minus], [dot] and [distance] iterate over the
    receiver: when the receiver is not longer than the argument they return
    normally, computing over the receiver and the leading components of the
    argument (the sums, the differences, the sum of the products, the root
    of the sum of the squared differences); when it is longer, the read
    past the end of the argument makes the decimal library throw its
    invalid-number error.  [cross] reads the indices 0 to 2: it returns the
    determinant expansion of the first three components when both operands
    have three components or more and throws (a type error or the
    library's invalid-number error) when either has fewer. *)
Theorem binary_operations_do_not_check_dimensions (this vector : list big) :
  plus this vector
    = (if decide (length this <= length vector)%nat
       then Ok (zip_with Big_plus this vector) else Throw InvalidNumber)
  /\ minus this vector
    = (if decide (length this <= length vector)%nat
       then Ok (zip_with Big_minus this vector) else Throw InvalidNumber)
  /\ (if decide (length this <= length vector)%nat
      then let leading := take (length this) vector in
           (exists s, dot this vector = Ok s
              /\ dot this leading = Ok s
              /\ (val s
                  == Qsum (zip_with (fun x y => val x * val y) this leading))%Q)
           /\ (exists squaresOfDifs d,
                 (val squaresOfDifs
                  == Qsum (zip_with
                             (fun x y => (val x - val y) * (val x - val y))
                             this leading))%Q
                 /\ Big_sqrt squaresOfDifs = Ok d
                 /\ distance this vector = Ok d
                 /\ distance this leading = Ok d)
      else dot this vector = Throw InvalidNumber
           /\ distance this vector = Throw InvalidNumber)
  /\ (if decide (3 <= length this /\ 3 <= length vector)%nat
      then exists t0 t1 t2 v0 v1 v2,
             take 3 this = [t0; t1; t2] /\ take 3 vector = [v0; v1; v2]
             /\ cross this vector
                = Ok [Big_minus (Big_times t1 v2) (Big_times t2 v1);
                      Big_minus (Big_times t2 v0) (Big_times t0 v2);
                      Big_minus (Big_times t0 v1) (Big_times t1 v0)]
      else cross this vector = Throw TypeError
           \/ cross this vector = Throw InvalidNumber).
Proof.
  split; [|split; [|split]].
  - case_decide; [by apply plus_zip | apply plus_short; lia].
  - case_decide; [by apply minus_zip | apply minus_short; lia].
  - case_decide as Hle; [|split; [apply dot_short | apply distance_short]; lia].
    intros leading.
    assert (Hlen : (length this <= length leading)%nat)
      by (unfold leading; rewrite length_take; lia).
    split.
    + destruct (val_dot this vector Hle) as (s & Hs & Hv). exists s.
      split; [done|]. unfold leading. split.
      * rewrite dot_foldl in * by done. by rewrite zip_with_take_r.
      * by rewrite zip_with_take_r.
    + destruct (distance_returns this vector Hle) as [d Hd].
      rewrite distance_foldl in Hd by done.
      eexists _, d. split; [|split; [exact Hd|split]].
      * rewrite (val_foldl_plus (fun p => Big_pow (Big_minus p.1 p.2) 2)).
        rewrite val_Big. change (inject_Z 0) with 0%Q. rewrite Qplus_0_l.
        unfold leading. rewrite zip_with_take_r.
        apply (Qsum_zip (fun x y => Big_pow (Big_minus x y) 2)
                 (fun a b => (a - b) * (a - b))%Q).
        intros x y. by rewrite val_pow2, val_minus.
      * by rewrite distance_foldl.
      * rewrite distance_foldl by done. unfold leading.
        by rewrite zip_with_take_r.
  - case_decide as Hlen.
    + destruct Hlen as [Ht Hv].
      destruct this as [|t0 [|t1 [|t2 t']]]; simpl in Ht; try lia.
      destruct vector as [|v0 [|v1 [|v2 v']]]; simpl in Hv; try lia.
      by exists t0, t1, t2, v0, v1, v2.
    + apply cross_short. lia.
Qed.

(** C10: when the receiver has no more components than the argument,
    [plus], [minus] and [dot] return normally: [plus] and [minus] give a
    vector of the receiver's dimension built from the receiver and the
    leading components of the argument, and [dot] sums the products of
    those components only. *)
Theorem receiver_length_drives_iteration (this vector : list big) :
  (length this <= length vector)%nat ->
  let leading := take (length this) vector in
  plus this vector = Ok (zip_with Big_plus this leading)
  /\ length (zip_with Big_plus this leading) = length this
  /\ minus this vector = Ok (zip_with Big_minus this leading)
  /\ length (zip_with Big_minus this leading) = length this
  /\ exists s, dot this vector = Ok s
       /\ dot this leading = Ok s
       /\ (val s == Qsum (zip_with (fun x y => val x * val y) this leading))%Q.
Proof.
  intros Hle leading.
  assert (Hlen : length leading = length this)
    by (unfold leading; rewrite length_take; lia).
  repeat split.
  - rewrite plus_zip by done. unfold leading. by rewrite zip_with_take_r.
  - rewrite length_zip_with. lia.
  - rewrite minus_zip by done. unfold leading. by rewrite zip_with_take_r.
  - rewrite length_zip_with. lia.
  - destruct (val_dot this vector Hle) as (s & Hs & Hv). exists s.
    repeat split; [done| |].
    + rewrite dot_foldl in * by lia. unfold leading.
      by rewrite zip_with_take_r.
    + unfold leading. by rewrite zip_with_take_r.
Qed.

(** C4: for two vectors of equal dimension [distance] returns, and what it
    returns is the very number [minus] followed by [magnitude] returns. *)
Theorem distance_is_magnitude_of_minus (this vector : list big) :
  length this = length vector ->
  exists d, distance this vector = Ok d
    /\ (difference ← minus this vector; magnitude difference) = Ok d.
Proof.
  intros Hlen. destruct (distance_returns this vector) as [d Hd]; [lia|].
  exists d. split; [done|]. by rewrite <- distance_minus_magnitude.
Qed.

(** C8: for two vectors of equal dimension both dot products return and
    the two numbers are equal. *)
Theorem dot_commutative (v w : list big) :
  length v = length w ->
  exists s s', dot v w = Ok s /\ dot w v = Ok s' /\ Big_eq s s' = true.
Proof.
  intros Hlen.
  destruct (val_dot v w) as (s & Hs & Hv); [lia|].
  destruct (val_dot w v) as (s' & Hs' & Hv'); [lia|].
  exists s, s'. repeat split; [done..|].
  apply Big_eq_val. rewrite Hv, Hv'.
  apply (Qsum_zip_flip Qmult). intros; ring.
Qed.

End BinaryClaims.

(** ** Claims on magnitude, cross product and direction *)

Section UnaryClaims.
Context {L : BigLib} {HL : BigLaws L}.
Import BigVector.

Lemma Big_eq_Z (x : big) (n : Z) :
  (val x == inject_Z n)%Q -> Big_eq x (Big n) = true.
Proof. intros Hx. apply Big_eq_val. by rewrite val_Big. Qed.

(** C5: [magnitude] returns the square root of a number that stands for
    the sum of the squares of the components; it equals zero when every
    component does; and the magnitude of (3, 4) equals 5. *)
Theorem magnitude_is_root_of_sum_of_squares (this : list big) :
  (1 <= length this)%nat ->
  (exists sumOfSquares r,
      (val sumOfSquares == Qsum ((fun c => val c * val c) <$> this))%Q
      /\ Big_sqrt sumOfSquares = Ok r
      /\ magnitude this = Ok r
      /\ (Forall (fun c => val c == 0)%Q this -> Big_eq r (Big 0) = true))
  /\ exists five, magnitude [Big 3; Big 4] = Ok five
       /\ Big_eq five (Big 5) = true.
Proof.
  intros _. split.
  - destruct (magnitude_returns this) as (r & Hr & _).
    rewrite magnitude_foldl in Hr.
    eexists _, r. split; [apply val_sumOfSquares|].
    repeat split; [done|by rewrite magnitude_foldl|].
    intros Hz. apply Big_eq_Z.
    refine (Big_sqrt_square _ _ 0 (Z.le_refl 0) _ Hr).
    rewrite val_sumOfSquares. apply Qsum_zero, Forall_fmap.
    eapply Forall_impl; [exact Hz|]. intros c Hc. simpl. rewrite Hc. ring.
  - destruct (magnitude_returns [Big 3; Big 4]) as (r & Hr & _).
    exists r. split; [done|]. rewrite magnitude_foldl in Hr.
    apply Big_eq_Z.
    refine (Big_sqrt_square _ _ 5 _ _ Hr); [lia|].
    rewrite val_sumOfSquares. simpl. rewrite !val_Big. reflexivity.
Qed.

(** C6: for three-dimensional operands [cross] returns the determinant
    expansion; the cross product of (1, 2, 3) and (4, 5, 6) equals
    (-3, 6, -3) and their dot product equals 32. *)
Theorem cross_is_determinant_expansion :
  (forall self0 self1 self2 other0 other1 other2 : big,
      cross [self0; self1; self2] [other0; other1; other2]
      = Ok [Big_minus (Big_times self1 other2) (Big_times self2 other1);
            Big_minus (Big_times self2 other0) (Big_times self0 other2);
            Big_minus (Big_times self0 other1) (Big_times self1 other0)])
  /\ (exists r, cross [Big 1; Big 2; Big 3] [Big 4; Big 5; Big 6] = Ok r
        /\ same_values r [Big (-3); Big 6; Big (-3)])
  /\ (exists s, dot [Big 1; Big 2; Big 3] [Big 4; Big 5; Big 6] = Ok s
        /\ Big_eq s (Big 32) = true).
Proof.
  split; [reflexivity|]. split.
  - eexists. split; [reflexivity|].
    repeat constructor; apply Big_eq_Z;
      rewrite val_minus, !val_times, !val_Big; reflexivity.
  - destruct (val_dot [Big 1; Big 2; Big 3] [Big 4; Big 5; Big 6])
      as (s & Hs & Hv); [done|].
    exists s. split; [done|]. apply Big_eq_Z. rewrite Hv. simpl.
    rewrite !val_Big. reflexivity.
Qed.

Lemma mapM_returns (g : big -> res big) (l : list big) :
  (forall c, returns (g c)) ->
  exists qs, mapM g l = Ok qs /\ Forall2 (fun c q => g c = Ok q) l qs.
Proof.
  intros Hg. induction l as [|c l (qs & IH & HF)]; simpl.
  - exists []. by split.
  - destruct (Hg c) as [q Hq]. exists (q :: qs).
    rewrite Hq. simpl. rewrite IH. simpl. split; [done|]. by constructor.
Qed.

(** C2 (amended): [magnitude] always returns.  When the magnitude is not
    zero, [direction] returns a vector object whose components are those
    of the receiver, each divided by the magnitude; when the magnitude is
    zero it returns the native number [NaN], which is a number and not an
    absent value. *)
Theorem direction_divides_or_is_NaN (this : list big) :
  exists m, magnitude this = Ok m
    /\ if Big_eq m (Big 0)
       then direction this = Ok NaN
            /\ is_numeric (NaN (V := list big)) = true
            /\ is_absent (NaN (V := list big)) = false
       else exists components,
            direction this = Ok (Vector components)
            /\ Forall2 (fun c q => Big_div c m = Ok q) this components.
Proof.
  destruct (magnitude_returns this) as (m & Hm & _). exists m.
  split; [done|]. unfold direction. rewrite Hm. cbn [mbind res_bind].
  destruct (Big_eq m (Big 0)) eqn:Hz; cbn [negb]; [done|].
  destruct (mapM_returns (fun c => Big_div c m) this) as (qs & Hqs & HF).
  { intros c. apply Big_div_nonzero. intros H0.
    assert (Big_eq m (Big 0) = true); [|congruence].
    apply Big_eq_val. by rewrite val_Big. }
  exists qs. split; [|done]. unfold for_upto.
  match goal with |- context [for_loop ?body] =>
    change body with
      (fun i s => x ← receiver (this !! i); q ← Big_div x m; Ok (s ++ [q]))
  end.
  rewrite loop_mapM by (simpl; lia).
  rewrite drop_0, take_ge by lia. by rewrite Hqs.
Qed.

End UnaryClaims.

(** ** Claims on angles *)

Section AngleClaims.
Context {L : BigLib} {HL : BigLaws L}.
Import BigVector.

Lemma Big_eq_zero (m : big) : Big_eq m (Big 0) = true <-> (val m == 0)%Q.
Proof. rewrite Big_eq_val, val_Big. reflexivity. Qed.

(** C7: when one of the two magnitudes is zero, [angle] throws: the
    division by the product of the magnitudes is a division by zero, unless
    the dot product has thrown before it (the receiver being longer than
    the argument). *)
Theorem angle_of_zero_magnitude_throws (this vector : list big) (m m' : big) :
  magnitude this = Ok m -> magnitude vector = Ok m' ->
  Big_eq m (Big 0) = true \/ Big_eq m' (Big 0) = true ->
  angle this vector
  = Throw (if decide (length this <= length vector)%nat
           then DivisionByZero else InvalidNumber).
Proof.
  intros Hm Hm' Hz. unfold angle. case_decide as Hle.
  - destruct (val_dot this vector Hle) as (s & -> & _).
    rewrite Hm, Hm'. cbn [mbind res_bind].
    rewrite Big_div_zero; [done|].
    rewrite val_times. destruct Hz as [Hz|Hz]; apply Big_eq_zero in Hz;
      rewrite Hz; ring.
  - by rewrite dot_short by lia.
Qed.


Lemma magnitude_unit_x :
  exists m1, magnitude [Big 1; Big 0] = Ok m1 /\ (val m1 == 1)%Q.
Proof.
  destruct (magnitude_returns [Big 1; Big 0]) as (m1 & Hm1 & _).
  exists m1. split; [done|]. rewrite magnitude_foldl in Hm1.
  refine (Big_sqrt_square _ _ 1 _ _ Hm1); [lia|].
  rewrite val_sumOfSquares. simpl. rewrite !val_Big. reflexivity.
Qed.


End AngleClaims.

(** ** Claims on the array a vector holds *)

Section ObjectClaims.
Context {L : BigLib}.
Import Obj.

Lemma alloc_extends (h : gmap ref (list big)) (a : list big) :
  h ⊆ (alloc h a).1 /\ h !! components (alloc h a).2 = None.
Proof.
  assert (Hfresh : h !! fresh (dom h) = None)
    by apply not_elem_of_dom, is_fresh.
  split; [by apply insert_subseteq | done].
Qed.

Lemma load_overwrite (h : gmap ref (list big)) (r : ref) (a : list big)
    (this : BigVector) :
  load (overwrite h r a) this
  = if decide (r = components this) then Ok a else load h this.
Proof.
  unfold load, overwrite. case_decide as Hr.
  - subst r. by rewrite lookup_insert_eq.
  - by rewrite lookup_insert_ne.
Qed.

(** C9 (amended): [getComponents] returns the vector's components in
    order as the very array the vector holds, which is the one that was
    passed to the constructor and not a copy.  Whatever the caller then
    does to that array is what the vector's later operations compute on;
    what the caller does to another array leaves them as they were.  The
    vector's own operations leave every array of the store as it was: the
    vector they return holds a new array. *)
Theorem getComponents_returns_the_array_held (h : gmap ref (list big))
    (r : ref) (a' : list big) :
  let this := new_BigVector r in
  getComponents this = r
  /\ (forall a, h !! r = Some a -> load h this = Ok a)
  /\ load (overwrite h (getComponents this) a') this = Ok a'
  /\ magnitude (overwrite h (getComponents this) a') this
     = BigVector.magnitude a'
  /\ (forall r', r' <> r ->
        load (overwrite h r' a') this = load h this
        /\ magnitude (overwrite h r' a') this = magnitude h this)
  /\ (forall vector scalar h' result,
        plus h this vector = Ok (h', result)
        \/ minus h this vector = Ok (h', result)
        \/ cross h this vector = Ok (h', result)
        \/ scale h this scalar = Ok (h', result)
        \/ direction h this = Ok (h', BigVector.Vector result) ->
        h ⊆ h' /\ h !! components result = None)
  /\ (forall h' r', direction h this = Ok (h', r') -> h ⊆ h').
Proof.
  intros this. split; [done|]. split.
  { intros a Ha. unfold load. simpl. by rewrite Ha. }
  split.
  { rewrite load_overwrite. by rewrite decide_True. }
  split.
  { unfold magnitude. rewrite load_overwrite. by rewrite decide_True. }
  split.
  { intros r' Hr'. unfold magnitude. rewrite load_overwrite.
    by rewrite decide_False. }
  assert (Hdir : forall h' r', direction h this = Ok (h', r') ->
            h ⊆ h' /\ forall result, r' = BigVector.Vector result ->
                                    h !! components result = None).
  { intros h' r' H. unfold direction in H.
    apply bind_Ok in H as (a & _ & H). apply bind_Ok in H as ([| | |c] & _ & H);
      try (injection H as <- <-; split; [done|discriminate]).
    pose proof (alloc_extends h c) as [Hsub Hnew].
    destruct (alloc h c) as [h1 v]. injection H as <- <-.
    split; [done|]. by intros result [= <-]. }
  split.
  - intros vector scalar h' result H.
    unfold plus, minus, cross, scale in H.
    destruct H as [H|[H|[H|[H|H]]]];
      [repeat (apply bind_Ok in H as (? & _ & H));
       injection H as <- <-; apply alloc_extends ..|].
    destruct (Hdir _ _ H) as [Hsub Hnew]. split; [done|]. by apply Hnew.
  - intros h' r' H. by destruct (Hdir _ _ H).
Qed.

End ObjectClaims.

(** ** Worked examples on the decimal library *)

Section Instances.
Import Decimal.

Example magnitude_3_4 : BigVector.magnitude [of_Z 3; of_Z 4] = Ok (of_Z 5).
Proof. vm_compute. reflexivity. Qed.

Example minus_3_4_zero :
  BigVector.minus [of_Z 3; of_Z 4] [of_Z 0; of_Z 0] = Ok [of_Z 3; of_Z 4].
Proof. vm_compute. reflexivity. Qed.

Example distance_3_4_zero :
  BigVector.distance [of_Z 3; of_Z 4] [of_Z 0; of_Z 0] = Ok (of_Z 5).
Proof. vm_compute. reflexivity. Qed.

Example cross_123_456 :
  BigVector.cross [of_Z 1; of_Z 2; of_Z 3] [of_Z 4; of_Z 5; of_Z 6]
  = Ok [of_Z (-3); of_Z 6; of_Z (-3)].
Proof. vm_compute. reflexivity. Qed.

Example dot_123_456 :
  BigVector.dot [of_Z 1; of_Z 2; of_Z 3] [of_Z 4; of_Z 5; of_Z 6] = Ok (of_Z 32).
Proof. vm_compute. reflexivity. Qed.

(** (3, 4) normalised is (0.6, 0.8); a third is kept to twenty places. *)
Example direction_3_4 :
  BigVector.direction [of_Z 3; of_Z 4] = Ok (BigVector.Vector [Dec 6 1; Dec 8 1]).
Proof. vm_compute. reflexivity. Qed.

Example div_third : div (of_Z 2) (of_Z 3) = Ok (Dec 66666666666666666667 20).
Proof. vm_compute. reflexivity. Qed.

Example sqrt_two : sqrt (of_Z 2) = Ok (Dec 14142135623730950488 19).
Proof. vm_compute. reflexivity. Qed.

Example plus_scale_minus_one :
  (opposite ← BigVector.scale [of_Z 3; Dec 25 1] (of_Z (-1));
   BigVector.plus [of_Z 3; Dec 25 1] opposite) = Ok [of_Z 0; of_Z 0].
Proof. vm_compute. reflexivity. Qed.

(** A magnitude rounded to below the first component gives a quotient
    above one, which has no arc cosine. *)
Example angle_of_quotient_above_one :
  BigVector.magnitude [Dec 14 21; of_Z 0] = Ok (Dec 1 20)
  /\ BigVector.angle [Dec 14 21; of_Z 0] [of_Z 1; of_Z 0] = Throw InvalidNumber.
Proof. split; vm_compute; reflexivity. Qed.

(** The vector (0, 1) is a quarter turn away from the positive x axis. *)
Example polarCoords_0_1 :
  BigVector.polarCoords [of_Z 0; of_Z 1]
  = Ok (of_Z 1, Dec 15707963267948966 16).
Proof. vm_compute. reflexivity. Qed.

(** C1, as stated, fails: the sum, the difference, the dot product and the
    distance of (1) and (1, 2) are returned, and so is the cross product of
    two four-dimensional vectors. *)
Lemma unequal_dimensions_are_accepted :
  length [of_Z 1] <> length [of_Z 1; of_Z 2]
  /\ BigVector.plus [of_Z 1] [of_Z 1; of_Z 2] = Ok [of_Z 2]
  /\ BigVector.minus [of_Z 1] [of_Z 1; of_Z 2] = Ok [of_Z 0]
  /\ BigVector.dot [of_Z 1] [of_Z 1; of_Z 2] = Ok (of_Z 1)
  /\ BigVector.distance [of_Z 1] [of_Z 1; of_Z 2] = Ok (of_Z 0)
  /\ BigVector.cross [of_Z 1; of_Z 0; of_Z 0; of_Z 9]
                     [of_Z 0; of_Z 1; of_Z 0; of_Z 9]
     = Ok [of_Z 0; of_Z 0; of_Z 1].
Proof. repeat split; [simpl; lia | vm_compute; reflexivity ..]. Qed.

Lemma binary_operations_do_not_check_dimensions_witness :
  BigVector.plus [of_Z 1; of_Z 2] [of_Z 1] = Throw InvalidNumber
  /\ BigVector.plus [of_Z 1] [of_Z 1; of_Z 2] = Ok [of_Z 2].
Proof.
  split.
  - exact (proj1 (binary_operations_do_not_check_dimensions
                    (L := lib) [of_Z 1; of_Z 2] [of_Z 1])).
  - exact (proj1 (binary_operations_do_not_check_dimensions
                    (L := lib) [of_Z 1] [of_Z 1; of_Z 2])).
Defined.

Lemma receiver_length_drives_iteration_witness :
  (length [of_Z 1] <= length [of_Z 1; of_Z 2])%nat
  /\ BigVector.plus [of_Z 1] [of_Z 1; of_Z 2] = Ok [of_Z 2].
Proof.
  split; [simpl; lia|].
  refine (proj1 (receiver_length_drives_iteration
                   (L := lib) [of_Z 1] [of_Z 1; of_Z 2] _)).
  simpl; lia.
Defined.

Lemma distance_is_magnitude_of_minus_witness :
  length [of_Z 3; of_Z 4] = length [of_Z 0; of_Z 0]
  /\ exists d, BigVector.distance [of_Z 3; of_Z 4] [of_Z 0; of_Z 0] = Ok d
       /\ (difference ← BigVector.minus [of_Z 3; of_Z 4] [of_Z 0; of_Z 0];
           BigVector.magnitude difference) = Ok d.
Proof.
  split; [reflexivity|].
  apply (distance_is_magnitude_of_minus (L := lib)). reflexivity.
Defined.

Lemma dot_commutative_witness :
  length [of_Z 1; of_Z 2; of_Z 3] = length [of_Z 4; of_Z 5; of_Z 6]
  /\ exists s s',
       BigVector.dot [of_Z 1; of_Z 2; of_Z 3] [of_Z 4; of_Z 5; of_Z 6] = Ok s
       /\ BigVector.dot [of_Z 4; of_Z 5; of_Z 6] [of_Z 1; of_Z 2; of_Z 3] = Ok s'
       /\ eqb s s' = true.
Proof.
  split; [reflexivity|].
  apply (dot_commutative (L := lib)). reflexivity.
Defined.

Lemma magnitude_is_root_of_sum_of_squares_witness :
  (1 <= length [of_Z 0; of_Z 0])%nat
  /\ (exists sumOfSquares r,
        (value sumOfSquares
         == Qsum ((fun c => value c * value c) <$> [of_Z 0; of_Z 0]))%Q
        /\ sqrt sumOfSquares = Ok r
        /\ BigVector.magnitude [of_Z 0; of_Z 0] = Ok r
        /\ (Forall (fun c => value c == 0)%Q [of_Z 0; of_Z 0] ->
            eqb r (of_Z 0) = true))
  /\ exists five, BigVector.magnitude [of_Z 3; of_Z 4] = Ok five
       /\ eqb five (of_Z 5) = true.
Proof.
  split; [simpl; lia|].
  apply (magnitude_is_root_of_sum_of_squares (L := lib) [of_Z 0; of_Z 0]).
  simpl; lia.
Defined.

Lemma cross_is_determinant_expansion_witness :
  exists s, BigVector.dot [of_Z 1; of_Z 2; of_Z 3] [of_Z 4; of_Z 5; of_Z 6] = Ok s
    /\ eqb s (of_Z 32) = true.
Proof.
  exact (proj2 (proj2 (cross_is_determinant_expansion (L := lib)))).
Defined.

(** C2, as stated, fails: the zero vector has magnitude zero and its
    direction is the number [NaN], not an absent value. *)
Lemma direction_of_zero_vector_is_a_number :
  BigVector.magnitude [of_Z 0; of_Z 0] = Ok (of_Z 0)
  /\ BigVector.direction [of_Z 0; of_Z 0] = Ok BigVector.NaN
  /\ BigVector.is_absent (BigVector.NaN (V := list dec)) = false
  /\ BigVector.is_numeric (BigVector.NaN (V := list dec)) = true.
Proof. repeat split; vm_compute; reflexivity. Qed.

Lemma direction_divides_or_is_NaN_witness :
  exists m, BigVector.magnitude [of_Z 3; of_Z 4] = Ok m
    /\ if eqb m (of_Z 0)
       then BigVector.direction [of_Z 3; of_Z 4] = Ok BigVector.NaN
            /\ BigVector.is_numeric (BigVector.NaN (V := list dec)) = true
            /\ BigVector.is_absent (BigVector.NaN (V := list dec)) = false
       else exists components,
            BigVector.direction [of_Z 3; of_Z 4] = Ok (BigVector.Vector components)
            /\ Forall2 (fun c q => div c m = Ok q) [of_Z 3; of_Z 4] components.
Proof. exact (direction_divides_or_is_NaN (L := lib) [of_Z 3; of_Z 4]). Defined.

Lemma angle_of_zero_magnitude_throws_witness :
  BigVector.magnitude [of_Z 0; of_Z 0] = Ok (of_Z 0)
  /\ BigVector.magnitude [of_Z 1; of_Z 0] = Ok (of_Z 1)
  /\ (eqb (of_Z 0) (of_Z 0) = true \/ eqb (of_Z 1) (of_Z 0) = true)
  /\ BigVector.angle [of_Z 0; of_Z 0] [of_Z 1; of_Z 0] = Throw DivisionByZero.
Proof.
  split; [reflexivity|]. split; [reflexivity|]. split; [left; reflexivity|].
  exact (angle_of_zero_magnitude_throws (L := lib)
           [of_Z 0; of_Z 0] [of_Z 1; of_Z 0] (of_Z 0) (of_Z 1)
           eq_refl eq_refl (or_introl eq_refl)).
Defined.



(** C9, as stated, fails: an assignment to the array obtained from
    [getComponents] changes the magnitude of the vector from 5 to 4. *)
Lemma assignment_through_getComponents_is_seen :
  let h : gmap Obj.ref (list dec) := {[ 7%nat := [of_Z 3; of_Z 4] ]} in
  let this := Obj.new_BigVector 7%nat in
  Obj.magnitude h this = Ok (of_Z 5)
  /\ (h' ← Obj.assign h (Obj.getComponents this) 0%nat (of_Z 0);
      Some (Obj.magnitude h' this)) = Some (Ok (of_Z 4)).
Proof. split; vm_compute; reflexivity. Qed.

End Instances.

(** * Further properties of the methods *)

(** ** Scaling, sums and differences *)

Section Algebra.
Context {L : BigLib} {HL : BigLaws L}.
Import BigVector.

Lemma same_values_refl_val (v w : list big) :
  Forall2 (fun x y => val x == val y)%Q v w -> same_values v w.
Proof.
  unfold same_values. induction 1; constructor; [by apply Big_eq_val | done].
Qed.

(** [scale] never throws, whatever the dimension: it returns a vector of
    the receiver's dimension whose component at each index is the
    receiver's times the scalar. *)
Theorem scale_is_componentwise (this : list big) (scalar : big) :
  exists r, scale this scalar = Ok r
    /\ length r = length this
    /\ forall i, r !! i = (fun x => Big_times x scalar) <$> (this !! i).
Proof.
  exists ((fun x => Big_times x scalar) <$> this).
  split; [apply scale_map|]. split; [apply length_fmap|].
  intros i. apply list_lookup_fmap.
Qed.

(** Scaling by a number that equals zero gives the zero vector, and
    scaling by a number that equals one gives a vector equal to the
    receiver. *)
Theorem scale_by_zero_and_one (this : list big) (scalar : big) :
  exists r, scale this scalar = Ok r
    /\ ((val scalar == 0)%Q -> zero_vector r)
    /\ ((val scalar == 1)%Q -> same_values r this).
Proof.
  eexists. split; [apply scale_map|]. split; intros Hk.
  - unfold zero_vector. apply Forall_fmap, Forall_true. intros x. simpl.
    apply Big_eq_Z. rewrite val_times, Hk. change (inject_Z 0) with 0%Q. ring.
  - apply same_values_refl_val. apply Forall2_fmap_l, Forall_Forall2_diag, Forall_true.
    intros x. simpl. rewrite val_times, Hk. ring.
Qed.

(** Adding to a vector its multiple by minus one gives the zero vector of
    the same dimension. *)
Theorem plus_scale_minus_one_is_zero (this : list big) :
  exists r, (opposite ← scale this (Big (-1)); plus this opposite) = Ok r
    /\ length r = length this
    /\ zero_vector r.
Proof.
  rewrite scale_map. cbn [mbind res_bind].
  rewrite plus_zip by (rewrite length_fmap; lia).
  eexists. split; [done|]. split.
  - rewrite length_zip_with, length_fmap. lia.
  - unfold zero_vector. induction this as [|x l IH]; simpl; constructor; [|done].
    apply Big_eq_Z. rewrite val_plus, val_times, val_Big.
    change (inject_Z (-1)) with (-1)%Q. change (inject_Z 0) with 0%Q. ring.
Qed.

(** For two vectors of equal dimension the two sums are equal. *)
Theorem plus_commutative (v w : list big) :
  length v = length w ->
  exists r r', plus v w = Ok r /\ plus w v = Ok r' /\ same_values r r'.
Proof.
  intros Hlen. rewrite !plus_zip by lia. eexists _, _. do 2 (split; [done|]).
  apply same_values_refl_val. clear Hlen. revert w.
  induction v as [|x v IH]; intros [|y w]; simpl; constructor; [|done].
  rewrite !val_plus. ring.
Qed.

(** Subtracting the argument from a sum gives back the receiver, and
    adding it to a difference does too. *)
Theorem minus_undoes_plus (v w : list big) :
  (length v <= length w)%nat ->
  (exists r, (s ← plus v w; minus s w) = Ok r /\ same_values r v)
  /\ (exists r, (d ← minus v w; plus d w) = Ok r /\ same_values r v).
Proof.
  intros Hlen. rewrite plus_zip, minus_zip by done. cbn [mbind res_bind].
  rewrite minus_zip, plus_zip by (rewrite length_zip_with; lia).
  split; (eexists; split; [done|]); apply same_values_refl_val;
    revert w Hlen; induction v as [|x v IH]; intros [|y w] Hlen;
    simpl in *; try lia; constructor; try (apply IH; lia).
  - rewrite val_minus, val_plus. ring.
  - rewrite val_plus, val_minus. ring.
Qed.

(** A vector minus itself is the zero vector and its distance to itself
    is zero. *)
Theorem minus_and_distance_to_self (v : list big) :
  (exists r, minus v v = Ok r /\ length r = length v /\ zero_vector r)
  /\ exists d, distance v v = Ok d /\ Big_eq d (Big 0) = true.
Proof.
  split.
  - rewrite minus_zip by done. eexists. split; [done|]. split.
    + rewrite length_zip_with. lia.
    + unfold zero_vector. induction v as [|x v IH]; simpl; constructor; [|done].
      apply Big_eq_Z. rewrite val_minus. change (inject_Z 0) with 0%Q. ring.
  - destruct (distance_returns v v) as [d Hd]; [done|]. exists d.
    split; [done|]. rewrite distance_foldl in Hd by done.
    apply Big_eq_Z. refine (Big_sqrt_square _ _ 0 (Z.le_refl 0) _ Hd).
    rewrite (val_foldl_plus (fun p => Big_pow (Big_minus p.1 p.2) 2)).
    rewrite val_Big. change (inject_Z 0) with 0%Q. rewrite Qplus_0_l.
    apply Qsum_zero. clear Hd.
    induction v as [|x v IH]; simpl; constructor; [|done].
    rewrite val_pow2, val_minus. ring.
Qed.

End Algebra.

(** ** Dot and cross products *)

Section Products.
Context {L : BigLib} {HL : BigLaws L}.
Import BigVector.

(** The exact sum of the products of the components of two vectors. *)
Local Abbreviation dotQ v w := (Qsum (zip_with (fun x y => val x * val y)%Q v w)).

Lemma dotQ_scale (v w : list big) (k : big) :
  (dotQ ((fun x => Big_times x k) <$> v) w == val k * dotQ v w)%Q.
Proof.
  revert w. induction v as [|x v IH]; intros [|y w]; simpl; try ring.
  rewrite IH, val_times. ring.
Qed.

Lemma dotQ_self_nonneg (v : list big) : (0 <= dotQ v v)%Q.
Proof.
  apply Qsum_nonneg. induction v as [|x v IH]; simpl; constructor; [|done].
  apply (Qsqr_nonneg (val x)).
Qed.

Lemma cauchy_cross_term (a b s p q : Q) :
  (0 <= p)%Q -> (0 <= q)%Q -> (s * s <= p * q)%Q ->
  (0 <= a * a * q + b * b * p - 2 * a * b * s)%Q.
Proof.
  intros Hp Hq Hs.
  pose proof (Qsqr_nonneg a) as Ha. pose proof (Qsqr_nonneg b) as Hb.
  simpl in Ha, Hb.
  destruct (Qlt_le_dec 0 p) as [Hpos|Hzero].
  - apply (Qmult_le_l _ _ p Hpos).
    setoid_replace (p * (a * a * q + b * b * p - 2 * a * b * s))%Q
      with (a * a * (p * q - s * s) + (a * s - b * p) * (a * s - b * p))%Q
      using relation Qeq by ring.
    pose proof (Qsqr_nonneg (a * s - b * p)) as Hsq. simpl in Hsq.
    assert (0 <= a * a * (p * q - s * s))%Q
      by (apply Qmult_le_0_compat; lra).
    lra.
  - assert (Hp0 : (p == 0)%Q) by lra.
    assert (Hs0 : (s == 0)%Q).
    { pose proof (Qsqr_nonneg s) as Hss. simpl in Hss.
      rewrite Hp0, Qmult_0_l in Hs.
      assert (Hz : (s * s == 0)%Q) by lra.
      by destruct (Qmult_integral _ _ Hz). }
    rewrite Hp0, Hs0.
    assert (0 <= a * a * q)%Q by (apply Qmult_le_0_compat; lra).
    lra.
Qed.

Lemma cauchy_step (a b s p q : Q) :
  (0 <= p)%Q -> (0 <= q)%Q -> (s * s <= p * q)%Q ->
  ((a * b + s) * (a * b + s) <= (a * a + p) * (b * b + q))%Q.
Proof.
  intros Hp Hq Hs. pose proof (cauchy_cross_term a b s p q Hp Hq Hs) as H.
  apply Qle_minus_iff.
  setoid_replace ((a * a + p) * (b * b + q) + - ((a * b + s) * (a * b + s)))%Q
    with ((a * a * q + b * b * p - 2 * a * b * s) + (p * q - s * s))%Q
    using relation Qeq by ring.
  lra.
Qed.

Lemma dotQ_cauchy (v w : list big) :
  length v = length w -> (dotQ v w * dotQ v w <= dotQ v v * dotQ w w)%Q.
Proof.
  revert w. induction v as [|x v IH]; intros [|y w] Hlen;
    simpl in *; try discriminate.
  injection Hlen as Hlen. specialize (IH w Hlen).
  pose proof (dotQ_self_nonneg v). pose proof (dotQ_self_nonneg w).
  apply cauchy_step; lra.
Qed.

(** The dot product is homogeneous: the dot product of a scaled vector is
    the scalar times the dot product. *)
Theorem dot_of_scaled (v w : list big) (k : big) :
  (length v <= length w)%nat ->
  exists s s', (scaled ← scale v k; dot scaled w) = Ok s
    /\ dot v w = Ok s'
    /\ Big_eq s (Big_times k s') = true.
Proof.
  intros Hlen. rewrite scale_map. cbn [mbind res_bind].
  destruct (val_dot ((fun x => Big_times x k) <$> v) w) as (s & Hs & Hv);
    [by rewrite length_fmap|].
  destruct (val_dot v w Hlen) as (s' & Hs' & Hv').
  exists s, s'. do 2 (split; [done|]).
  apply Big_eq_val. by rewrite Hv, val_times, Hv', dotQ_scale.
Qed.

(** The dot product of a vector with itself is not negative, and for two
    vectors of equal dimension the square of their dot product is at most
    the product of their dot products with themselves. *)
Theorem dot_cauchy_schwarz (v w : list big) :
  length v = length w ->
  exists s a b, dot v w = Ok s /\ dot v v = Ok a /\ dot w w = Ok b
    /\ (0 <= val a)%Q /\ (0 <= val b)%Q
    /\ (val s * val s <= val a * val b)%Q.
Proof.
  intros Hlen.
  destruct (val_dot v w) as (s & Hs & Hv); [lia|].
  destruct (val_dot v v) as (a & Ha & Hva); [lia|].
  destruct (val_dot w w) as (b & Hb & Hvb); [lia|].
  exists s, a, b. do 3 (split; [done|]).
  rewrite Hv, Hva, Hvb.
  split; [apply dotQ_self_nonneg|]. split; [apply dotQ_self_nonneg|].
  by apply dotQ_cauchy.
Qed.

(** The cross product of two three-dimensional vectors is orthogonal to
    both: its dot product with either equals zero. *)
Theorem cross_is_orthogonal (v0 v1 v2 w0 w1 w2 : big) :
  exists c s s', cross [v0; v1; v2] [w0; w1; w2] = Ok c
    /\ dot c [v0; v1; v2] = Ok s /\ Big_eq s (Big 0) = true
    /\ dot c [w0; w1; w2] = Ok s' /\ Big_eq s' (Big 0) = true.
Proof.
  destruct (val_dot [Big_minus (Big_times v1 w2) (Big_times v2 w1);
                     Big_minus (Big_times v2 w0) (Big_times v0 w2);
                     Big_minus (Big_times v0 w1) (Big_times v1 w0)]
              [v0; v1; v2]) as (s & Hs & Hv); [done|].
  destruct (val_dot [Big_minus (Big_times v1 w2) (Big_times v2 w1);
                     Big_minus (Big_times v2 w0) (Big_times v0 w2);
                     Big_minus (Big_times v0 w1) (Big_times v1 w0)]
              [w0; w1; w2]) as (s' & Hs' & Hv'); [done|].
  eexists.
  exists s, s'. split; [reflexivity|].
  split; [done|]. split.
  { apply Big_eq_Z. rewrite Hv. simpl. rewrite !val_minus, !val_times.
    change (inject_Z 0) with 0%Q. ring. }
  split; [done|].
  apply Big_eq_Z. rewrite Hv'. simpl. rewrite !val_minus, !val_times.
  change (inject_Z 0) with 0%Q. ring.
Qed.

(** The cross product is anticommutative: the two cross products of two
    three-dimensional vectors add up to the zero vector; and the cross
    product of a vector with itself is the zero vector. *)
Theorem cross_is_anticommutative (v0 v1 v2 w0 w1 w2 : big) :
  (exists r, (c ← cross [v0; v1; v2] [w0; w1; w2];
              c' ← cross [w0; w1; w2] [v0; v1; v2];
              plus c c') = Ok r
     /\ length r = 3%nat /\ zero_vector r)
  /\ exists c, cross [v0; v1; v2] [v0; v1; v2] = Ok c /\ zero_vector c.
Proof.
  split.
  - eexists. split; [reflexivity|]. split; [reflexivity|].
    repeat constructor; apply Big_eq_Z;
      rewrite val_plus, !val_minus, !val_times;
      change (inject_Z 0) with 0%Q; ring.
  - eexists. split; [reflexivity|].
    repeat constructor; apply Big_eq_Z;
      rewrite !val_minus, !val_times;
      change (inject_Z 0) with 0%Q; ring.
Qed.

End Products.

(** ** Magnitude and distance *)

Section Norms.
Context {L : BigLib} {HL : BigLaws L}.
Import BigVector.

(** [magnitude] never throws, whatever the dimension, and what it returns
    is not negative; on the empty vector it returns a number equal to
    zero. *)
Theorem magnitude_is_never_negative (this : list big) :
  exists m, magnitude this = Ok m /\ (0 <= val m)%Q
    /\ (this = [] -> Big_eq m (Big 0) = true).
Proof.
  destruct (magnitude_returns this) as (m & Hm & Hpos). exists m.
  do 2 (split; [done|]). intros ->. rewrite magnitude_foldl in Hm.
  apply Big_eq_Z. refine (Big_sqrt_square _ _ 0 (Z.le_refl 0) _ Hm).
  simpl. by rewrite val_Big.
Qed.

Lemma Qsum_Permutation (l k : list Q) : l ≡ₚ k -> (Qsum l == Qsum k)%Q.
Proof.
  induction 1 as [|q l k _ IH|p q l|l k j _ IH1 _ IH2]; simpl.
  - reflexivity.
  - by rewrite IH.
  - ring.
  - by rewrite IH1.
Qed.

Lemma same_outcome_Ok (a b : res big) (x y : big) :
  same_outcome a b -> a = Ok x -> b = Ok y -> Big_eq x y = true.
Proof. by intros H -> ->. Qed.

Context {HP : BigSqrtProper L}.

(** The magnitude does not depend on the order of the components. *)
Theorem magnitude_of_permutation (this that : list big) :
  this ≡ₚ that ->
  exists m m', magnitude this = Ok m /\ magnitude that = Ok m'
    /\ Big_eq m m' = true.
Proof.
  intros Hperm.
  destruct (magnitude_returns this) as (m & Hm & _).
  destruct (magnitude_returns that) as (m' & Hm' & _).
  exists m, m'. do 2 (split; [done|]).
  rewrite magnitude_foldl in Hm, Hm'.
  refine (same_outcome_Ok _ _ _ _ (Big_sqrt_val _ _ _) Hm Hm').
  rewrite !val_sumOfSquares. apply Qsum_Permutation.
  by apply fmap_Permutation.
Qed.

(** The distance between two vectors of equal dimension is the same in
    both directions. *)
Theorem distance_symmetric (v w : list big) :
  length v = length w ->
  exists d d', distance v w = Ok d /\ distance w v = Ok d'
    /\ Big_eq d d' = true.
Proof.
  intros Hlen.
  destruct (distance_returns v w) as [d Hd]; [lia|].
  destruct (distance_returns w v) as [d' Hd']; [lia|].
  exists d, d'. do 2 (split; [done|]).
  rewrite distance_foldl in Hd, Hd' by lia.
  refine (same_outcome_Ok _ _ _ _ (Big_sqrt_val _ _ _) Hd Hd').
  rewrite !(val_foldl_plus (fun p => Big_pow (Big_minus p.1 p.2) 2)).
  apply Qplus_comp; [reflexivity|].
  rewrite !(Qsum_zip (fun x y => Big_pow (Big_minus x y) 2)
                     (fun a b => (a - b) * (a - b))%Q)
    by (intros; rewrite val_pow2, val_minus; reflexivity).
  apply (Qsum_zip_flip (fun a b => (a - b) * (a - b))%Q). intros; ring.
Qed.

(** Subtracting a zero vector gives a vector equal to the receiver, and
    the distance to a zero vector is the magnitude. *)
Theorem distance_to_zero_vector_is_magnitude (this zero : list big) :
  zero_vector zero -> (length this <= length zero)%nat ->
  (exists r, minus this zero = Ok r /\ same_values r this)
  /\ exists d m, distance this zero = Ok d /\ magnitude this = Ok m
       /\ Big_eq d m = true.
Proof.
  intros Hz Hlen. split.
  - rewrite minus_zip by done. eexists. split; [done|].
    unfold same_values. revert zero Hz Hlen.
    induction this as [|x l IH]; intros [|z zs] Hz Hlen;
      simpl in *; try lia; constructor.
    + apply Big_eq_val. rewrite val_minus.
      apply Forall_inv in Hz. apply Big_eq_val in Hz. rewrite Hz, val_Big.
      change (inject_Z 0) with 0%Q. ring.
    + apply IH; [by eapply Forall_inv_tail | lia].
  - destruct (distance_returns this zero Hlen) as [d Hd].
    destruct (magnitude_returns this) as (m & Hm & _).
    exists d, m. do 2 (split; [done|]).
    rewrite distance_foldl in Hd by done. rewrite magnitude_foldl in Hm.
    refine (same_outcome_Ok _ _ _ _ (Big_sqrt_val _ _ _) Hd Hm).
    rewrite val_sumOfSquares.
    rewrite (val_foldl_plus (fun p => Big_pow (Big_minus p.1 p.2) 2)).
    rewrite val_Big. change (inject_Z 0) with 0%Q. rewrite Qplus_0_l.
    clear Hd Hm. revert zero Hz Hlen.
    induction this as [|x l IH]; intros [|z zs] Hz Hlen;
      simpl in *; try lia; try reflexivity.
    rewrite (IH zs); [|by eapply Forall_inv_tail|lia].
    rewrite val_pow2, val_minus.
    apply Forall_inv in Hz. apply Big_eq_val in Hz. rewrite Hz, val_Big.
    change (inject_Z 0) with 0%Q. apply Qplus_comp; [ring | reflexivity].
Qed.

(** The magnitude is the root of the dot product of the vector with
    itself. *)
Theorem magnitude_is_root_of_dot (this : list big) :
  exists s r m, dot this this = Ok s /\ Big_sqrt s = Ok r
    /\ magnitude this = Ok m /\ Big_eq r m = true.
Proof.
  destruct (val_dot this this) as (s & Hs & Hv); [done|].
  destruct (magnitude_returns this) as (m & Hm & _).
  assert (Hsum : (val s == Qsum ((fun c => val c * val c)%Q <$> this))%Q).
  { rewrite Hv. clear. induction this as [|x l IH]; simpl; [reflexivity|].
    by rewrite IH. }
  destruct (Big_sqrt_returns s) as [r Hr].
  { rewrite Hsum. generalize (sumOfSquares_nonneg (val <$> this)).
    by rewrite <- list_fmap_compose. }
  exists s, r, m. do 3 (split; [done|]).
  rewrite magnitude_foldl in Hm.
  refine (same_outcome_Ok _ _ _ _ (Big_sqrt_val _ _ _) Hr Hm).
  by rewrite val_sumOfSquares.
Qed.

End Norms.

(** ** Direction, angle and polar coordinates *)

Section Angles.
Context {L : BigLib} {HL : BigLaws L}.
Import BigVector.

Lemma direction_unfold (this : list big) (m : big) :
  magnitude this = Ok m ->
  direction this
  = if Big_eq m (Big 0) then Ok NaN
    else (qs ← mapM (fun c => Big_div c m) this; Ok (Vector qs)).
Proof.
  intros Hm. unfold direction. rewrite Hm. cbn [mbind res_bind].
  destruct (Big_eq m (Big 0)); cbn [negb]; [done|]. unfold for_upto.
  match goal with |- context [for_loop ?body] =>
    change body with
      (fun i s => x ← receiver (this !! i); q ← Big_div x m; Ok (s ++ [q]))
  end.
  rewrite loop_mapM by (simpl; lia).
  rewrite drop_0, take_ge by lia.
  by destruct (mapM (fun c => Big_div c m) this).
Qed.

(** [direction] never throws and never returns an absent value: its result
    is the number [NaN] or a vector of the receiver's dimension; it is
    [NaN] for every vector all of whose components equal zero, the empty
    vector among them. *)
Theorem direction_is_NaN_or_same_dimension (this : list big) :
  exists r, direction this = Ok r
    /\ match r with
       | Vector components => length components = length this
       | NaN => True
       | Undefined | Null => False
       end
    /\ (zero_vector this -> r = NaN).
Proof.
  destruct (magnitude_returns this) as (m & Hm & _).
  rewrite (direction_unfold this m Hm).
  assert (Hzero : zero_vector this -> Big_eq m (Big 0) = true).
  { intros Hz. rewrite magnitude_foldl in Hm. apply Big_eq_Z.
    refine (Big_sqrt_square _ _ 0 (Z.le_refl 0) _ Hm).
    rewrite val_sumOfSquares. apply Qsum_zero, Forall_fmap.
    eapply Forall_impl; [exact Hz|]. intros c Hc%Big_eq_zero. simpl.
    rewrite Hc. ring. }
  destruct (Big_eq m (Big 0)) eqn:Hz.
  - exists NaN. by repeat split.
  - destruct (mapM_returns (fun c => Big_div c m) this) as (qs & -> & HF).
    { intros c. apply Big_div_nonzero. intros H0%Big_eq_zero. congruence. }
    exists (Vector qs). cbn [mbind res_bind]. split; [done|]. split.
    + symmetry. by eapply Forall2_length.
    + intros Hz'. apply Hzero in Hz'. congruence.
Qed.

(** [angle] evaluates the dot product first: with a receiver longer than
    the argument it throws the library's invalid-number error, whatever the
    magnitudes.  An angle it returns lies between zero and [Math.PI]. *)
Theorem angle_short_argument_and_range (this vector : list big) :
  ((length vector < length this)%nat ->
   angle this vector = Throw InvalidNumber)
  /\ forall a, angle this vector = Ok a -> (0 <= val a <= Math_PI)%Q.
Proof.
  split.
  - intros Hlen. unfold angle. by rewrite dot_short.
  - intros a Ha. unfold angle in Ha.
    apply bind_Ok in Ha as (n & _ & Ha). apply bind_Ok in Ha as (k & _ & Ha).
    apply bind_Ok in Ha as (k' & _ & Ha). apply bind_Ok in Ha as (q & _ & Ha).
    by apply Math_acos_range in Ha.
Qed.

Lemma angle_nonzero (this vector : list big) (m m' : big) :
  (length this <= length vector)%nat ->
  magnitude this = Ok m -> magnitude vector = Ok m' ->
  Big_eq m (Big 0) = false -> Big_eq m' (Big 0) = false ->
  exists n q, dot this vector = Ok n
    /\ Big_div n (Big_times m m') = Ok q
    /\ angle this vector = Big_of_number (Math_acos (Big_valueOf q)).
Proof.
  intros Hlen Hm Hm' Hz Hz'.
  destruct (val_dot this vector Hlen) as (n & Hn & _).
  destruct (Big_div_nonzero n (Big_times m m')) as [q Hq].
  { rewrite val_times. intros H0.
    destruct (Qmult_integral _ _ H0) as [H|H]; apply Big_eq_zero in H;
      congruence. }
  exists n, q. do 2 (split; [done|]).
  unfold angle. rewrite Hn, Hm, Hm'. cbn [mbind res_bind].
  by rewrite Hq.
Qed.

(** When neither magnitude is zero and the receiver is not longer than the
    argument, the division in [angle] returns: the angle is the native arc
    cosine of the quotient, and it is returned when the quotient lies
    between minus one and one. *)
Theorem angle_of_nonzero_magnitudes (this vector : list big) (m m' : big) :
  (length this <= length vector)%nat ->
  magnitude this = Ok m -> magnitude vector = Ok m' ->
  Big_eq m (Big 0) = false -> Big_eq m' (Big 0) = false ->
  exists n q, dot this vector = Ok n
    /\ Big_div n (Big_times m m') = Ok q
    /\ angle this vector = Big_of_number (Math_acos (Big_valueOf q))
    /\ ((-1 <= val q <= 1)%Q -> returns (angle this vector)).
Proof.
  intros Hlen Hm Hm' Hz Hz'.
  destruct (angle_nonzero this vector m m') as (n & q & Hn & Hq & Ha);
    try done.
  exists n, q. do 3 (split; [done|]). rewrite Ha.
  apply Math_acos_returns.
Qed.

(** [polarCoords] does not look at the dimension.  A zero magnitude gives
    the pair of the magnitude and zero in any dimension.  Otherwise a
    vector of at most two components gets the native arc cosine of the
    quotient of its dot product with (1, 0) by the product of its magnitude
    and the magnitude of (1, 0), which stands for one (a single component
    is read as lying on the x axis), and a vector of more than two makes
    the library throw its invalid-number error. *)
Theorem polarCoords_in_other_dimensions (this : list big) :
  exists m, magnitude this = Ok m
    /\ if Big_eq m (Big 0)
       then polarCoords this = Ok (m, Big 0)
       else if decide (length this <= 2)%nat
       then exists n m1 q,
              dot this [Big 1; Big 0] = Ok n
              /\ magnitude [Big 1; Big 0] = Ok m1 /\ (val m1 == 1)%Q
              /\ Big_div n (Big_times m m1) = Ok q
              /\ polarCoords this
                 = (a ← Big_of_number (Math_acos (Big_valueOf q)); Ok (m, a))
       else polarCoords this = Throw InvalidNumber.
Proof.
  destruct (magnitude_returns this) as (m & Hm & _). exists m.
  split; [done|]. unfold polarCoords. rewrite Hm. cbn [mbind res_bind].
  destruct (Big_eq m (Big 0)) eqn:Hz; cbn [negb]; [done|].
  case_decide as Hlen.
  - destruct magnitude_unit_x as (m1 & Hm1 & Hv1).
    assert (Hz1 : Big_eq m1 (Big 0) = false).
    { destruct (Big_eq m1 (Big 0)) eqn:E; [|done].
      apply Big_eq_zero in E. rewrite Hv1 in E. discriminate. }
    destruct (angle_nonzero this [Big 1; Big 0] m m1)
      as (n & q & Hn & Hq & ->); try done.
    by exists n, m1, q.
  - unfold angle. rewrite dot_short by (simpl; lia). done.
Qed.

End Angles.

(** ** The arrays of the results *)

Section Results.
Context {L : BigLib}.
Import Obj.

(** What holds of the store after a method has returned [result]: the
    operands hold the components they held, also after whatever the caller
    does to the array of the result. *)
Local Abbreviation operands_kept h' this a vector b result :=
  (load h' this = Ok a /\ load h' vector = Ok b
   /\ forall c', load (overwrite h' (getComponents result) c') this = Ok a
              /\ load (overwrite h' (getComponents result) c') vector = Ok b).

Lemma alloc_keeps (h : gmap ref (list big)) (c a b : list big)
    (this vector : BigVector) :
  h !! components this = Some a -> h !! components vector = Some b ->
  load (alloc h c).1 (alloc h c).2 = Ok c
  /\ operands_kept (alloc h c).1 this a vector b (alloc h c).2.
Proof.
  intros Ha Hb.
  destruct (alloc_extends h c) as [Hsub Hnew].
  assert (Hne : forall v x, h !! components v = Some x ->
            components (alloc h c).2 <> components v)
    by (intros v x Hv E; rewrite E in Hnew; congruence).
  assert (Hkept : forall v x, h !! components v = Some x ->
            load (alloc h c).1 v = Ok x).
  { intros v x Hv. unfold load.
    by rewrite (lookup_weaken _ _ _ _ Hv Hsub). }
  split; [|split; [eauto|split; [eauto|]]].
  - unfold load, alloc. simpl. by rewrite lookup_insert_eq.
  - intros c'. rewrite !load_overwrite.
    rewrite !decide_False by (unfold getComponents; eauto). eauto.
Qed.

(** The vector returned by [plus], [minus], [cross] or [scale] holds the
    components the method has computed, in an array of its own: the
    operands still hold theirs, and nothing the caller then does to the
    array of the result changes them. *)
Theorem results_do_not_share_arrays (h h' : gmap ref (list big))
    (this vector result : BigVector) (a b : list big) (scalar : big) :
  h !! components this = Some a -> h !! components vector = Some b ->
  (plus h this vector = Ok (h', result) ->
     BigVector.plus a b = load h' result
     /\ operands_kept h' this a vector b result)
  /\ (minus h this vector = Ok (h', result) ->
     BigVector.minus a b = load h' result
     /\ operands_kept h' this a vector b result)
  /\ (cross h this vector = Ok (h', result) ->
     BigVector.cross a b = load h' result
     /\ operands_kept h' this a vector b result)
  /\ (scale h this scalar = Ok (h', result) ->
     BigVector.scale a scalar = load h' result
     /\ operands_kept h' this a vector b result).
Proof.
  intros Ha Hb.
  assert (Hla : load h this = Ok a) by (unfold load; by rewrite Ha).
  assert (Hlb : load h vector = Ok b) by (unfold load; by rewrite Hb).
  unfold plus, minus, cross, scale. rewrite Hla, Hlb. cbn [mbind res_bind].
  split; [|split; [|split]]; intros H;
    apply bind_Ok in H as (c & Hc & H);
    destruct (alloc_keeps h c a b this vector Ha Hb) as [Hload Hkept];
    destruct (alloc h c) as [h1 v]; injection H as <- <-;
    simpl in Hload, Hkept; rewrite ?Hc, ?Hload; tauto.
Qed.

End Results.

(** ** The further properties on the decimal library *)

Section FurtherInstances.
Import Decimal.

Lemma sqrt_proper x y :
  (value x == value y)%Q -> same_outcome (L := lib) (sqrt x) (sqrt y).
Proof.
  intros Hxy. apply (proj1 (value_eq x y)) in Hxy. unfold sqrt.
  pose proof (ten_pos (scale x)) as Hx. pose proof (ten_pos (scale y)) as Hy.
  assert (Hsign : mant x < 0 <-> mant y < 0).
  { split; intros Hneg; apply Z.nle_gt; intros Hge.
    - assert (mant x * ten (scale y) < 0) by (apply Z.mul_neg_pos; lia).
      assert (0 <= mant y * ten (scale x)) by (apply Z.mul_nonneg_nonneg; lia).
      lia.
    - assert (mant y * ten (scale x) < 0) by (apply Z.mul_neg_pos; lia).
      assert (0 <= mant x * ten (scale y)) by (apply Z.mul_nonneg_nonneg; lia).
      lia. }
  destruct (Z.ltb_spec (mant x) 0) as [Hn|Hn];
    destruct (Z.ltb_spec (mant y) 0) as [Hn'|Hn']; try lia; [done|].
  assert (E : 4 * mant x * ten (2 * DP) / ten (scale x)
              = 4 * mant y * ten (2 * DP) / ten (scale y)).
  { rewrite <- (Z.div_mul_cancel_r _ (ten (scale x)) (ten (scale y))) by lia.
    rewrite <- (Z.div_mul_cancel_r (4 * mant y * _) (ten (scale y))
                  (ten (scale x))) by lia.
    f_equal; [|ring].
    replace (4 * mant x * ten (2 * DP) * ten (scale y))
      with (4 * ten (2 * DP) * (mant x * ten (scale y))) by ring.
    rewrite Hxy. ring. }
  rewrite E. simpl. unfold eqb. apply Z.eqb_refl.
Qed.

#[global] Instance sqrt_laws : BigSqrtProper lib.
Proof. split. exact sqrt_proper. Qed.

Lemma scale_by_zero_and_one_witness :
  exists r, BigVector.scale [of_Z 3; Dec 25 1] (of_Z 0) = Ok r
    /\ zero_vector (L := lib) r.
Proof.
  destruct (scale_by_zero_and_one (L := lib) [of_Z 3; Dec 25 1] (of_Z 0))
    as (r & Hr & Hz & _).
  exists r. split; [exact Hr | apply Hz; reflexivity].
Defined.

Lemma plus_scale_minus_one_is_zero_witness :
  exists r, (opposite ← BigVector.scale [of_Z 3; Dec 25 1] (of_Z (-1));
             BigVector.plus [of_Z 3; Dec 25 1] opposite) = Ok r
    /\ length r = length [of_Z 3; Dec 25 1]
    /\ zero_vector (L := lib) r.
Proof. exact (plus_scale_minus_one_is_zero (L := lib) [of_Z 3; Dec 25 1]). Defined.

Lemma plus_commutative_witness :
  length [of_Z 1; Dec 5 1] = length [Dec 25 2; of_Z 4]
  /\ exists r r', BigVector.plus [of_Z 1; Dec 5 1] [Dec 25 2; of_Z 4] = Ok r
       /\ BigVector.plus [Dec 25 2; of_Z 4] [of_Z 1; Dec 5 1] = Ok r'
       /\ same_values (L := lib) r r'.
Proof.
  split; [reflexivity|].
  apply (plus_commutative (L := lib)). reflexivity.
Defined.

Lemma minus_undoes_plus_witness :
  (length [of_Z 1; Dec 5 1] <= length [Dec 25 2; of_Z 4; of_Z 7])%nat
  /\ exists r, (s ← BigVector.plus [of_Z 1; Dec 5 1] [Dec 25 2; of_Z 4; of_Z 7];
               BigVector.minus s [Dec 25 2; of_Z 4; of_Z 7]) = Ok r
       /\ same_values (L := lib) r [of_Z 1; Dec 5 1].
Proof.
  split; [simpl; lia|].
  refine (proj1 (minus_undoes_plus (L := lib) [of_Z 1; Dec 5 1]
                   [Dec 25 2; of_Z 4; of_Z 7] _)).
  simpl; lia.
Defined.

Lemma minus_and_distance_to_self_witness :
  exists d, BigVector.distance [of_Z 1; Dec 5 1] [of_Z 1; Dec 5 1] = Ok d
    /\ eqb d (of_Z 0) = true.
Proof.
  exact (proj2 (minus_and_distance_to_self (L := lib) [of_Z 1; Dec 5 1])).
Defined.

Lemma dot_of_scaled_witness :
  (length [of_Z 1; of_Z 2] <= length [of_Z 3; of_Z 4])%nat
  /\ exists s s',
       (scaled ← BigVector.scale [of_Z 1; of_Z 2] (Dec 5 1);
        BigVector.dot scaled [of_Z 3; of_Z 4]) = Ok s
       /\ BigVector.dot [of_Z 1; of_Z 2] [of_Z 3; of_Z 4] = Ok s'
       /\ eqb s (mul (Dec 5 1) s') = true.
Proof.
  split; [simpl; lia|].
  apply (dot_of_scaled (L := lib)). simpl; lia.
Defined.

Lemma dot_cauchy_schwarz_witness :
  length [of_Z 1; of_Z 2] = length [of_Z 3; of_Z 4]
  /\ exists s a b,
       BigVector.dot [of_Z 1; of_Z 2] [of_Z 3; of_Z 4] = Ok s
       /\ BigVector.dot [of_Z 1; of_Z 2] [of_Z 1; of_Z 2] = Ok a
       /\ BigVector.dot [of_Z 3; of_Z 4] [of_Z 3; of_Z 4] = Ok b
       /\ (0 <= value a)%Q /\ (0 <= value b)%Q
       /\ (value s * value s <= value a * value b)%Q.
Proof.
  split; [reflexivity|].
  apply (dot_cauchy_schwarz (L := lib)). reflexivity.
Defined.

Lemma cross_is_orthogonal_witness :
  exists c s s',
    BigVector.cross [of_Z 1; of_Z 2; of_Z 3] [of_Z 4; of_Z 5; of_Z 6] = Ok c
    /\ BigVector.dot c [of_Z 1; of_Z 2; of_Z 3] = Ok s
    /\ eqb s (of_Z 0) = true
    /\ BigVector.dot c [of_Z 4; of_Z 5; of_Z 6] = Ok s'
    /\ eqb s' (of_Z 0) = true.
Proof.
  exact (cross_is_orthogonal (L := lib)
           (of_Z 1) (of_Z 2) (of_Z 3) (of_Z 4) (of_Z 5) (of_Z 6)).
Defined.

Lemma cross_is_anticommutative_witness :
  exists c, BigVector.cross [of_Z 1; of_Z 2; of_Z 3] [of_Z 1; of_Z 2; of_Z 3]
            = Ok c
    /\ zero_vector (L := lib) c.
Proof.
  exact (proj2 (cross_is_anticommutative (L := lib)
                  (of_Z 1) (of_Z 2) (of_Z 3) (of_Z 4) (of_Z 5) (of_Z 6))).
Defined.

Lemma magnitude_is_never_negative_witness :
  exists m, BigVector.magnitude (L := lib) [] = Ok m
    /\ (0 <= value m)%Q
    /\ eqb m (of_Z 0) = true.
Proof.
  destruct (magnitude_is_never_negative (L := lib) []) as (m & Hm & Hpos & Hz).
  exists m. split; [exact Hm|]. split; [exact Hpos | apply Hz; reflexivity].
Defined.

Lemma magnitude_of_permutation_witness :
  [of_Z 3; of_Z 4; Dec 5 1] ≡ₚ [Dec 5 1; of_Z 3; of_Z 4]
  /\ exists m m',
       BigVector.magnitude [of_Z 3; of_Z 4; Dec 5 1] = Ok m
       /\ BigVector.magnitude [Dec 5 1; of_Z 3; of_Z 4] = Ok m'
       /\ eqb m m' = true.
Proof.
  assert (H : [of_Z 3; of_Z 4; Dec 5 1] ≡ₚ [Dec 5 1; of_Z 3; of_Z 4]).
  { symmetry. apply (Permutation_cons_append [of_Z 3; of_Z 4] (Dec 5 1)). }
  split; [exact H|].
  exact (magnitude_of_permutation (L := lib) _ _ H).
Defined.

Lemma distance_symmetric_witness :
  length [of_Z 3; of_Z 4] = length [of_Z 0; of_Z 1]
  /\ exists d d',
       BigVector.distance [of_Z 3; of_Z 4] [of_Z 0; of_Z 1] = Ok d
       /\ BigVector.distance [of_Z 0; of_Z 1] [of_Z 3; of_Z 4] = Ok d'
       /\ eqb d d' = true.
Proof.
  split; [reflexivity|].
  apply (distance_symmetric (L := lib)). reflexivity.
Defined.

Lemma distance_to_zero_vector_is_magnitude_witness :
  zero_vector (L := lib) [of_Z 0; of_Z 0]
  /\ (length [of_Z 3; of_Z 4] <= length [of_Z 0; of_Z 0])%nat
  /\ exists d m,
       BigVector.distance [of_Z 3; of_Z 4] [of_Z 0; of_Z 0] = Ok d
       /\ BigVector.magnitude [of_Z 3; of_Z 4] = Ok m
       /\ eqb d m = true.
Proof.
  assert (Hz : zero_vector (L := lib) [of_Z 0; of_Z 0])
    by (repeat constructor).
  split; [exact Hz|]. split; [simpl; lia|].
  refine (proj2 (distance_to_zero_vector_is_magnitude (L := lib)
                   [of_Z 3; of_Z 4] [of_Z 0; of_Z 0] Hz _)).
  simpl; lia.
Defined.

Lemma magnitude_is_root_of_dot_witness :
  exists s r m,
    BigVector.dot [of_Z 3; of_Z 4] [of_Z 3; of_Z 4] = Ok s
    /\ sqrt s = Ok r
    /\ BigVector.magnitude [of_Z 3; of_Z 4] = Ok m
    /\ eqb r m = true.
Proof. exact (magnitude_is_root_of_dot (L := lib) [of_Z 3; of_Z 4]). Defined.

Lemma direction_is_NaN_or_same_dimension_witness :
  exists r, BigVector.direction (L := lib) [] = Ok r /\ r = BigVector.NaN.
Proof.
  destruct (direction_is_NaN_or_same_dimension (L := lib) [])
    as (r & Hr & _ & Hz).
  exists r. split; [exact Hr | apply Hz; constructor].
Defined.

Lemma angle_short_argument_and_range_witness :
  (length [of_Z 1] < length [of_Z 1; of_Z 2])%nat
  /\ BigVector.angle [of_Z 1; of_Z 2] [of_Z 1] = Throw InvalidNumber.
Proof.
  split; [simpl; lia|].
  apply (angle_short_argument_and_range (L := lib)). simpl; lia.
Defined.

Lemma angle_of_nonzero_magnitudes_witness :
  (length [of_Z 0; of_Z 2] <= length [of_Z 3; of_Z 0])%nat
  /\ exists n q,
       BigVector.dot [of_Z 0; of_Z 2] [of_Z 3; of_Z 0] = Ok n
       /\ div n (mul (of_Z 2) (of_Z 3)) = Ok q
       /\ BigVector.angle [of_Z 0; of_Z 2] [of_Z 3; of_Z 0]
          = of_num (acos (valueOf q))
       /\ ((-1 <= value q <= 1)%Q ->
           returns (BigVector.angle [of_Z 0; of_Z 2] [of_Z 3; of_Z 0])).
Proof.
  split; [simpl; lia|].
  apply (angle_of_nonzero_magnitudes (L := lib)
           [of_Z 0; of_Z 2] [of_Z 3; of_Z 0] (of_Z 2) (of_Z 3));
    [simpl; lia | reflexivity ..].
Defined.

Lemma polarCoords_in_other_dimensions_witness :
  exists m, BigVector.magnitude [of_Z 1; of_Z 2; of_Z 2] = Ok m
    /\ BigVector.polarCoords [of_Z 1; of_Z 2; of_Z 2] = Throw InvalidNumber.
Proof.
  destruct (polarCoords_in_other_dimensions (L := lib)
              [of_Z 1; of_Z 2; of_Z 2]) as (m & Hm & Hp).
  exists m. split; [exact Hm|].
  assert (E : Ok m = Ok (of_Z 3)) by (rewrite <- Hm; reflexivity).
  injection E as ->. exact Hp.
Defined.

Lemma results_do_not_share_arrays_witness :
  let h : gmap Obj.ref (list dec) :=
    {[ 1%nat := [of_Z 3; of_Z 4]; 2%nat := [of_Z 1; of_Z 1] ]} in
  let this := Obj.new_BigVector 1%nat in
  let vector := Obj.new_BigVector 2%nat in
  exists h' result,
    Obj.plus (L := lib) h this vector = Ok (h', result)
    /\ Obj.load (L := lib) h' result = Ok [of_Z 4; of_Z 5]
    /\ Obj.load (L := lib) h' this = Ok [of_Z 3; of_Z 4]
    /\ Obj.load (L := lib) (Obj.overwrite h' (Obj.getComponents result) []) this
       = Ok [of_Z 3; of_Z 4].
Proof.
  intros h this vector.
  destruct (Obj.plus (L := lib) h this vector) as [[h' result]|e] eqn:Hplus;
    [|vm_compute in Hplus; discriminate].
  exists h', result. split; [reflexivity|].
  destruct (results_do_not_share_arrays (L := lib) h h' this vector result
              [of_Z 3; of_Z 4] [of_Z 1; of_Z 1] (of_Z 0))
    as (Hp & _); [reflexivity | reflexivity |].
  destruct (Hp Hplus) as (Hres & Hthis & _ & Hover).
  split; [rewrite <- Hres; reflexivity|].
  split; [exact Hthis | exact (proj1 (Hover []))].
Defined.

End FurtherInstances.
